(** * EDSReanalysis: the spatial-interpolation engine of [utilities.py]

    A shallow embedding of the mesh geometry, the barycentric basis
    evaluation, the containment resolution with its nearest-wins tie-break,
    the time-series reduction, the metadata table and the year-range
    validation, followed by the properties the specification states
    about them.

    Numbers.  The program computes with numpy [float64] arrays.  The
    embedding keeps the shape of IEEE values (finite, the two infinities,
    not-a-number) and evaluates the finite part in exact rational
    arithmetic: there is no rounding and no overflow, and zero carries no
    sign (a division by zero takes the sign of its numerator).  Integer
    arrays are [Z]; numpy arrays are lists, two-dimensional ones lists of
    rows.  Python exceptions and [sys.exit] are the [Raise] outcomes of the
    [result] type. *)

From Stdlib Require Import String DecimalString ZArith QArith Qcanon List Sorted Bool Lia.
Import ListNotations.

Local Open Scope Z_scope.

(* ================================================================== *)
(** * Outcomes of Python code *)
(* ================================================================== *)

Inductive exn : Type :=
| IndexError      (* sequence or array index out of range *)
| KeyError        (* missing dictionary / dataset key *)
| TypeError       (* unsupported operand types, as None < int *)
| ValueError      (* shape mismatch *)
| SystemExit.     (* sys.exit(1) *)

Inductive result (A : Type) : Type :=
| Ok (a : A)
| Raise (e : exn).

Arguments Ok {A} a.
Arguments Raise {A} e.

Definition bind {A B} (c : result A) (k : A -> result B) : result B :=
  match c with
  | Ok a => k a
  | Raise e => Raise e
  end.

Notation "x <- c ;; k" := (bind c (fun x => k))
  (at level 61, c at next level, right associativity).
Notation "' pat <- c ;; k" := (bind c (fun x => match x with pat => k end))
  (at level 61, pat pattern, c at next level, right associativity).

Fixpoint mapM {A B} (f : A -> result B) (l : list A) : result (list B) :=
  match l with
  | [] => Ok []
  | a :: l' => b <- f a ;; bs <- mapM f l' ;; Ok (b :: bs)
  end.

(** Python / numpy integer indexing: [l[i]] with negative indices counted
    from the end, [IndexError] outside [-len(l) .. len(l)-1]. *)
Definition py_index {A} (l : list A) (i : Z) : result A :=
  let n := Z.of_nat (length l) in
  let pos := if i <? 0 then n + i else i in
  if (0 <=? pos) && (pos <? n) then
    match nth_error l (Z.to_nat pos) with
    | Some a => Ok a
    | None => Raise IndexError
    end
  else Raise IndexError.

(* ================================================================== *)
(** * float64 values in exact arithmetic *)
(* ================================================================== *)

Inductive float64 : Type :=
| Fin (q : Qc)          (* a finite value *)
| Inf (neg : bool)      (* +inf (false) and -inf (true) *)
| NaN.

Definition Qceqb (a b : Qc) : bool := Qeq_bool a b.
Definition Qcleb (a b : Qc) : bool := Qle_bool a b.
Definition Qcneg (a : Qc) : bool := negb (Qle_bool 0 a).

Definition fneg (x : float64) : float64 :=
  match x with
  | Fin a => Fin (- a)%Qc
  | Inf s => Inf (negb s)
  | NaN => NaN
  end.

Definition fadd (x y : float64) : float64 :=
  match x, y with
  | Fin a, Fin b => Fin (a + b)%Qc
  | Fin _, Inf s => Inf s
  | Inf s, Fin _ => Inf s
  | Inf s, Inf t => if Bool.eqb s t then Inf s else NaN
  | _, _ => NaN
  end.

Definition fsub (x y : float64) : float64 := fadd x (fneg y).

Definition fmul (x y : float64) : float64 :=
  match x, y with
  | Fin a, Fin b => Fin (a * b)%Qc
  | Fin a, Inf s => if Qceqb a 0%Qc then NaN else Inf (xorb (Qcneg a) s)
  | Inf s, Fin b => if Qceqb b 0%Qc then NaN else Inf (xorb s (Qcneg b))
  | Inf s, Inf t => Inf (xorb s t)
  | _, _ => NaN
  end.

Definition fdiv (x y : float64) : float64 :=
  match x, y with
  | Fin a, Fin b =>
      if Qceqb b 0%Qc
      then (if Qceqb a 0%Qc then NaN else Inf (Qcneg a))
      else Fin (a / b)%Qc
  | Fin _, Inf _ => Fin 0%Qc
  | Inf s, Fin b => Inf (xorb s (Qcneg b))
  | Inf _, Inf _ => NaN
  | _, _ => NaN
  end.

(** [x <= y]; every comparison with not-a-number is false. *)
Definition fle (x y : float64) : bool :=
  match x, y with
  | Fin a, Fin b => Qcleb a b
  | Fin _, Inf s => negb s
  | Inf s, Fin _ => s
  | Inf s, Inf t => s || negb t
  | _, _ => false
  end.

Definition fge (x y : float64) : bool := fle y x.

Definition isnan (x : float64) : bool :=
  match x with NaN => true | _ => false end.

Definition isfinite (x : float64) : bool :=
  match x with Fin _ => true | _ => false end.

Definition of_Z (z : Z) : float64 := Fin (Q2Qc (inject_Z z)).

Declare Scope float_scope.
Delimit Scope float_scope with F.
Bind Scope float_scope with float64.
Infix "+" := fadd : float_scope.
Infix "-" := fsub : float_scope.
Infix "*" := fmul : float_scope.
Infix "/" := fdiv : float_scope.
Notation "- x" := (fneg x) : float_scope.
Infix "<=?" := fle : float_scope.
Infix ">=?" := fge : float_scope.

(* ================================================================== *)
(** * Module constants *)
(* ================================================================== *)

(** [TOL=10e-5] *)
Definition TOL : float64 := Fin (Q2Qc (10 # 100000)).

(** [Ymin=1979], [Ymax=2022], [YEARS=[item for item in range(Ymin, Ymax+1)]] *)
Definition Ymin : Z := 1979.
Definition Ymax : Z := 2022.

Definition py_range (lo hi : Z) : list Z :=
  map (fun i => lo + Z.of_nat i) (seq 0 (Z.to_nat (hi - lo))).

Definition YEARS : list Z := py_range Ymin (Ymax + 1).

(** The value an unassigned entry of [final_jvals] keeps. *)
Definition NOT_FOUND : Z := -99999.

(* ================================================================== *)
(** * The mesh: [get_adcirc_grid_from_ds], [attach_element_areas] *)
(* ================================================================== *)

Definition point : Type := (float64 * float64)%type.
Definition triple (A : Type) : Type := (A * A * A)%type.

(** The fields of the [agdict] dictionary the engine reads.  [areas] is
    absent until [attach_element_areas] has run, [tree] until
    [ComputeTree] has. *)
Record agdict : Type := mkAgdict {
  lon : list float64;
  lat : list float64;
  ele : list (triple Z);           (* 0-based node indices *)
  depth : list float64;
  areas : option (list float64);
  tree : option (list point)        (* the centroids the KDTree holds *)
}.

(** A numpy array of one or of two dimensions. *)
Inductive ndarray : Type :=
| Arr1 (v : list float64)
| Arr2 (rows : list (list float64)).

(** A data variable of the dataset: the names of its dimensions and its
    values. *)
Record variable : Type := mkVariable {
  dims : list string;
  data : ndarray
}.

(** The dataset [f63_to_xr] opens: the mesh, the time axis and the named
    data variables. *)
Record dataset : Type := mkDataset {
  ds_x : list float64;
  ds_y : list float64;
  ds_element : list (triple Z);     (* 1-based node numbers *)
  ds_depth : list float64;
  ds_time : list Z;
  ds_variables : list (string * variable)
}.

(** [agdict['ele'] = ds['element'][:,:] - 1]; the key [latmin] (a mean
    latitude kept for plots) is read by no stage of the engine. *)
Definition get_adcirc_grid_from_ds (ds : dataset) : agdict :=
  {| lon := ds_x ds;
     lat := ds_y ds;
     ele := map (fun '(a, b, c) => (a - 1, b - 1, c - 1)) (ds_element ds);
     depth := ds_depth ds;
     areas := None;
     tree := None |}.

Definition two : float64 := of_Z 2.
Definition three : float64 := of_Z 3.

(** [( x1*dy23 + x2*dy31 + x3*dy12 )/2.] *)
Definition signed_area (x1 y1 x2 y2 x3 y3 : float64) : float64 :=
  let dy23 := (y2 - y3)%F in
  let dy31 := (y3 - y1)%F in
  let dy12 := (y1 - y2)%F in
  ((x1 * dy23 + x2 * dy31 + x3 * dy12) / two)%F.

(** The coordinates of the three nodes of one element: [x[i1]], ... *)
Definition element_nodes (x y : list float64) (e : triple Z)
  : result (triple float64 * triple float64) :=
  let '(i1, i2, i3) := e in
  x1 <- py_index x i1 ;; x2 <- py_index x i2 ;; x3 <- py_index x i3 ;;
  y1 <- py_index y i1 ;; y2 <- py_index y i2 ;; y3 <- py_index y i3 ;;
  Ok ((x1, x2, x3), (y1, y2, y3)).

Definition element_area (x y : list float64) (e : triple Z) : result float64 :=
  ' ((x1, x2, x3), (y1, y2, y3)) <- element_nodes x y e ;;
  Ok (signed_area x1 y1 x2 y2 x3 y3).

(** The edge lengths and their mean need a square root and are read by no
    later stage; the embedding keeps the areas. *)
Definition attach_element_areas (ag : agdict) : result agdict :=
  a <- mapM (element_area (lon ag) (lat ag)) (ele ag) ;;
  Ok {| lon := lon ag; lat := lat ag; ele := ele ag; depth := depth ag;
        areas := Some a; tree := tree ag |}.

(* ================================================================== *)
(** * The basis evaluator: [basis2d], [basis2d_withinElement] *)
(* ================================================================== *)

Definition phi : Type := triple float64.

(** One row of [basis2d]: the three weights of the point [(xp, yp)] for
    the element with nodes [(x1,y1)], [(x2,y2)], [(x3,y3)] and stored area
    [areaj]. *)
Definition basis2d_row (x1 y1 x2 y2 x3 y3 areaj xp yp : float64) : phi :=
  (* Basis function 1 *)
  let a := (x2 * y3 - x3 * y2)%F in
  let b := (y2 - y3)%F in
  let c := (- (x2 - x3))%F in
  let phi0 := ((a + b * xp + c * yp) / (two * areaj))%F in
  (* Basis function 2 *)
  let a := (x3 * y1 - x1 * y3)%F in
  let b := (y3 - y1)%F in
  let c := (- (x3 - x1))%F in
  let phi1 := ((a + b * xp + c * yp) / (two * areaj))%F in
  (* Basis function 3 *)
  let a := (x1 * y2 - x2 * y1)%F in
  let b := (y1 - y2)%F in
  let c := (- (x1 - x2))%F in
  let phi2 := ((a + b * xp + c * yp) / (two * areaj))%F in
  (phi0, phi1, phi2).

(** The row of the point [p] and the element number [j]:
    [n3=agdict['ele'][j]], the node coordinates, [agdict['areas'][j]]. *)
Definition basis2d_at (ag : agdict) (p : point) (j : Z) : result phi :=
  n3 <- py_index (ele ag) j ;;
  ' ((x1, x2, x3), (y1, y2, y3)) <- element_nodes (lon ag) (lat ag) n3 ;;
  ar <- match areas ag with Some a => Ok a | None => Raise KeyError end ;;
  areaj <- py_index ar j ;;
  Ok (basis2d_row x1 y1 x2 y2 x3 y3 areaj (fst p) (snd p)).

(** [basis2d(agdict,xylist,j)]: one element number per point.  numpy
    evaluates each line for the whole batch; the rows do not depend on one
    another, so the batch is the list of its rows and raises when a row
    does.  (numpy would broadcast a single row against many; every caller
    passes one entry per query point on both sides.) *)
Definition basis2d (ag : agdict) (xylist : list point) (j : list Z)
  : result (list phi) :=
  if Nat.eqb (length xylist) (length j)
  then mapM (fun '(p, ji) => basis2d_at ag p ji) (combine xylist j)
  else Raise ValueError.

Definition all3 (f : float64 -> bool) (p : phi) : bool :=
  let '(a, b, c) := p in f a && f b && f c.

(** One row of [basis2d_withinElement]. *)
Definition within_row (p : phi) : bool :=
  all3 (fun v => v <=? of_Z 1 + TOL)%F p
  && all3 (fun v => v >=? of_Z 0 - TOL)%F p.

(** [np.all(phi[:]<=1+TOL,axis=1) & np.all(phi[:]>=0-TOL,axis=1)] *)
Definition basis2d_withinElement (phis : list phi) : list bool :=
  map within_row phis.

(* ================================================================== *)
(** * The spatial index: [ComputeTree], [ComputeQuery] *)
(* ================================================================== *)

(** [scipy.spatial.KDTree] is a library; the embedding holds the centroid
    array the tree was built from and answers a query by ordering the
    centroids by distance to the query point, nearest first, equal
    distances by element number.  Distances are held by their squares (the
    square root is not rational, the order is the same, and no later stage
    reads them).  As scipy documents, a neighbour that does not exist (more
    neighbours asked for than the tree has points) is reported with an
    infinite distance and the index [n], the number of points. *)
Definition kdtree : Type := list point.

Definition neighbor : Type := (float64 * Z)%type.

Definition dist2 (p c : point) : float64 :=
  let dx := (fst p - fst c)%F in
  let dy := (snd p - snd c)%F in
  (dx * dx + dy * dy)%F.

Fixpoint insert_neighbor (x : neighbor) (l : list neighbor) : list neighbor :=
  match l with
  | [] => [x]
  | y :: l' => if (fst x <=? fst y)%F then x :: y :: l'
               else y :: insert_neighbor x l'
  end.

Fixpoint sort_neighbors (l : list neighbor) : list neighbor :=
  match l with
  | [] => []
  | x :: l' => insert_neighbor x (sort_neighbors l')
  end.

Definition enumerate {A} (l : list A) : list (Z * A) :=
  combine (map Z.of_nat (seq 0 (length l))) l.

Definition all_neighbors (t : kdtree) (p : point) : list neighbor :=
  sort_neighbors (map (fun '(i, c) => (dist2 p c, i)) (enumerate t)).

Definition missing_neighbor (t : kdtree) : neighbor :=
  (Inf false, Z.of_nat (length t)).

(** [tree.query(p, k=k)] for one point. *)
Definition kd_query1 (t : kdtree) (p : point) (k : nat) : list neighbor :=
  firstn k (all_neighbors t p ++ repeat (missing_neighbor t) (k - length t)).

(** [xe=np.mean(x[e],axis=1)], [ye=np.mean(y[e],axis=1)] *)
Definition centroid (x y : list float64) (e : triple Z) : result point :=
  ' ((x1, x2, x3), (y1, y2, y3)) <- element_nodes x y e ;;
  Ok (((x1 + x2 + x3) / three)%F, ((y1 + y2 + y3) / three)%F).

(** [ComputeTree(agdict)].  The module global [got_kdtree] is threaded
    through: the tree is built when it is [None] and reused otherwise. *)
Definition ComputeTree (got_kdtree : option kdtree) (ag : agdict)
  : result (agdict * option kdtree) :=
  xe_ye <- mapM (centroid (lon ag) (lat ag)) (ele ag) ;;
  let with_tree t :=
    {| lon := lon ag; lat := lat ag; ele := ele ag; depth := depth ag;
       areas := areas ag; tree := Some t |} in
  match got_kdtree with
  | None => Ok (with_tree xe_ye, Some xe_ye)
  | Some t => Ok (with_tree t, Some t)
  end.

(** The keys [ComputeQuery] stores in [agresults]. *)
Record query_results : Type := mkQuery {
  distance : list (list float64);
  elements : list (list Z);         (* num points by neighbors *)
  number_neighbors : nat;
  geopoints : list point
}.

Definition ComputeQuery (xylist : list point) (ag : agdict) (kmax : nat)
  : result query_results :=
  t <- match tree ag with Some t => Ok t | None => Raise KeyError end ;;
  let nb := map (fun p => kd_query1 t p kmax) xylist in
  Ok {| distance := map (map fst) nb;
        elements := map (map snd) nb;
        number_neighbors := kmax;
        geopoints := xylist |}.

(* ================================================================== *)
(** * The containment resolver: [ComputeBasisRepresentation] *)
(* ================================================================== *)

(** [j[:,k]]: column [k] of a two-dimensional array. *)
Definition column {A} (j : list (list A)) (k : nat) : result (list A) :=
  mapM (fun row => match nth_error row k with
                   | Some v => Ok v
                   | None => Raise IndexError
                   end) j.

(** [dst[mask] = src[mask]] for arrays of one length. *)
Fixpoint mask_assign {A} (mask : list bool) (src dst : list A) : list A :=
  match mask, src, dst with
  | m :: mask', s :: src', d :: dst' =>
      (if m then s else d) :: mask_assign mask' src' dst'
  | _, _, _ => dst
  end.

(** [j.T]: the columns of [j], as many as a row is long. *)
Definition transpose {A} (j : list (list A)) : result (list (list A)) :=
  match j with
  | [] => Ok []
  | row :: _ => mapM (column j) (seq 0 (length row))
  end.

(** The first loop: [phival_list], the weights of every point for its
    [k_value]-th candidate, for each [k_value in range(0,kmax)]. *)
Definition basis_tables (xylist : list point) (ag : agdict) (q : query_results)
  : result (list (list phi)) :=
  mapM (fun k_value =>
          jk <- column (elements q) k_value ;;
          basis2d ag xylist jk)
       (seq 0 (number_neighbors q)).

Definition assignment : Type := (list phi * list Z * list bool)%type.

(** One pass of the second loop. *)
Definition overwrite (final : assignment)
  (cand : list phi * (list Z * list bool)) : assignment :=
  let '(final_weights, final_jvals, final_status) := final in
  let '(pvals, (jvals, testvals)) := cand in
  (mask_assign testvals pvals final_weights,
   mask_assign testvals jvals final_jvals,
   mask_assign testvals testvals final_status).

Definition nan3 : phi := (NaN, NaN, NaN).

(** [np.argwhere(np.isnan(final_weights).all(axis=1)).ravel()] *)
Definition argwhere_all_nan (w : list phi) : list Z :=
  map fst (filter (fun ip => all3 isnan (snd ip)) (enumerate w)).

(** What [ComputeBasisRepresentation] adds to [agresults]. *)
Record basis_results : Type := mkBasis {
  query : query_results;
  final_weights : list phi;
  final_jvals : list Z;
  final_status : list bool;
  outside_elements : list Z
}.

(** [ComputeBasisRepresentation(xylist, agdict, agresults)]: the weights
    and flags of every candidate, then the backward loop that keeps, for
    each point, the nearest candidate flagged within. *)
Definition ComputeBasisRepresentation
  (xylist : list point) (ag : agdict) (q : query_results)
  : result basis_results :=
  let j := elements q in
  (* First build all the basis weights and determine if it was interior *)
  phival_list <- basis_tables xylist ag q ;;
  let within_interior := map basis2d_withinElement phival_list in
  (* phival_list[0]: IndexError on an empty list *)
  phival0 <- match phival_list with
             | p :: _ => Ok p
             | [] => Raise IndexError
             end ;;
  jT <- transpose j ;;
  let npoints := length phival0 in
  let init : assignment :=
    (repeat nan3 npoints, repeat NOT_FOUND npoints, repeat false npoints) in
  (* Loop backwards, keeping the nearest True for each point *)
  let '(fw, fj, fs) :=
    fold_left overwrite
      (combine (rev phival_list) (combine (rev jT) (rev within_interior)))
      init in
  Ok {| query := q;
        final_weights := fw;
        final_jvals := fj;
        final_status := fs;
        outside_elements := argwhere_all_nan fw |}.

(* ================================================================== *)
(** * Reading the nodal series: [get_adcirc_slice_from_ds] *)
(* ================================================================== *)

Fixpoint lookup {A} (k : string) (d : list (string * A)) : result A :=
  match d with
  | [] => Raise KeyError
  | (k', a) :: d' => if String.eqb k k' then Ok a else lookup k d'
  end.

(** [re.search(pat, v)] for a pattern without special characters. *)
Definition re_search (pat v : string) : bool :=
  match String.index 0 pat v with Some _ => true | None => false end.

Definition get_adcirc_time_from_ds (ds : dataset) : list Z := ds_time ds.

(** [get_adcirc_slice_from_ds(ds,v,it)] with [it] an array of node
    indices; the value is [advardict['var']]. *)
Definition get_adcirc_slice_from_ds (ds : dataset) (v : string) (it : list Z)
  : result ndarray :=
  var <- lookup v (ds_variables ds) ;;
  if re_search "max" v || re_search "depth" v then
    Ok (data var)
  else
    d0 <- match dims var with d :: _ => Ok d | [] => Raise IndexError end ;;
    if String.eqb d0 "node" then
      match data var with
      | Arr2 rows =>
          sel <- mapM (py_index rows) it ;;        (* var[it,:] *)
          selT <- transpose sel ;;                 (* .T *)
          Ok (Arr2 selT)
      | Arr1 _ => Raise IndexError
      end
    else if String.eqb d0 "time" then
      match data var with
      | Arr2 rows =>                               (* var[:,it] *)
          sel <- mapM (fun row => mapM (py_index row) it) rows ;;
          Ok (Arr2 sel)
      | Arr1 _ => Raise IndexError
      end
    else
      (* Unexpected leading variable name: Abort *)
      Raise SystemExit.

(* ================================================================== *)
(** * The reduction: [WaterLevelReductions] *)
(* ================================================================== *)

(** [pd.DataFrame(a).values]: a one-dimensional array becomes one column. *)
Definition frame_values (a : ndarray) : list (list float64) :=
  match a with
  | Arr1 v => map (fun x => [x]) v
  | Arr2 rows => rows
  end.

(** The inner product of one row with the weight vector. *)
Fixpoint dot (row w : list float64) : float64 :=
  match row, w with
  | a :: row', b :: w' => (a * b + dot row' w')%F
  | _, _ => of_Z 0
  end.

(** [np.matmul(m, w)] of a matrix with a vector: [ValueError] unless the
    rows are as long as the vector. *)
Definition matmul (m : list (list float64)) (w : list float64)
  : result (list float64) :=
  mapM (fun row => if Nat.eqb (length row) (length w)
                   then Ok (dot row w) else Raise ValueError) m.

Definition weights_vector (p : phi) : list float64 :=
  let '(a, b, c) := p in [a; b; c].

(** [f'P{index+1}'] *)
Definition point_label (index : nat) : string :=
  "P" ++ NilEmpty.string_of_uint (Nat.to_uint (index + 1)).

(** A table of float columns sharing one index. *)
Record dataframe : Type := mkFrame {
  df_index : list Z;
  df_columns : list (string * list float64)
}.

Definition reduce_one (t : list Z)
  (idw : nat * (list (list float64) * phi)) : result (string * list float64) :=
  let '(index, (dataseries, weights)) := idw in
  reduced_data <- matmul dataseries (weights_vector weights) ;;
  (* pd.DataFrame(reduced_data, index=t, ...) *)
  if Nat.eqb (length reduced_data) (length t)
  then Ok (point_label index, reduced_data)
  else Raise ValueError.

Definition WaterLevelReductions (t : list Z)
  (data_list : list (list (list float64))) (final_weights : list phi)
  : result dataframe :=
  final_list <-
    mapM (reduce_one t)
         (combine (seq 0 (length data_list)) (combine data_list final_weights)) ;;
  (* pd.concat of an empty list raises *)
  match final_list with
  | [] => Raise ValueError
  | _ => Ok {| df_index := t; df_columns := final_list |}
  end.

(* ================================================================== *)
(** * The metadata table: [GenerateMetadata] *)
(* ================================================================== *)

Record meta_row : Type := mkMeta {
  Point : string;
  LON : float64;
  LAT : float64;
  Element : Z                      (* 'Element (1-based)' *)
}.

(** [df_elements.replace(-99998,-99999)] *)
Definition replace (old new v : Z) : Z := if v =? old then new else v.

(** One row per entry of [geopoints] and [final_jvals] (both hold one
    entry per query point). *)
Definition GenerateMetadata (r : basis_results) : list meta_row :=
  let df_elements := map (fun j => replace (-99998) (-99999) (j + 1)) (final_jvals r) in
  map (fun '(index, (p, e)) =>
         {| Point := point_label index; LON := fst p; LAT := snd p; Element := e |})
      (combine (seq 0 (length df_elements))
               (combine (geopoints (query r)) df_elements)).

(* ================================================================== *)
(** * [ConstructReducedWaterLevelData_from_ds] *)
(* ================================================================== *)

Record reduced_results : Type := mkReduced {
  basis : basis_results;
  final_reduced_data : dataframe;
  final_meta_data : list meta_row
}.

Definition ConstructReducedWaterLevelData_from_ds
  (ds : dataset) (ag : agdict) (r : basis_results) (variable_name : option string)
  : result reduced_results :=
  match variable_name with
  | None => Raise SystemExit          (* User MUST supply the variable name *)
  | Some variable_name =>
      let t := get_adcirc_time_from_ds ds in
      let e := ele ag in
      data_list <-
        mapM (fun vstation =>
                ' (n1, n2, n3) <- py_index e vstation ;;
                var <- get_adcirc_slice_from_ds ds variable_name [n1; n2; n3] ;;
                Ok (frame_values var))
             (final_jvals r) ;;
      df_final <- WaterLevelReductions t data_list (final_weights r) ;;
      let df_meta := GenerateMetadata r in
      Ok {| basis := r;
            final_reduced_data := df_final;
            final_meta_data := df_meta |}
  end.

(* ================================================================== *)
(** * [Combined_pipeline] for one dataset *)
(* ================================================================== *)

Record excluded_row : Type := mkExcluded {
  ex_index : Z;                    (* outside_elements+1 *)
  ex_lon : float64;
  ex_lat : float64
}.

(** [Combined_pipeline], from the dataset [f63_to_xr(url)] has opened.  The
    value is the reduced table, the metadata table, the excluded points and
    the module global [got_kdtree] as the call leaves it. *)
Definition Combined_pipeline (got_kdtree : option kdtree) (ds : dataset)
  (variable_name : option string) (geopoints : list point)
  (nearest_neighbors : nat)
  : result (dataframe * list meta_row * list excluded_row * option kdtree) :=
  let ag := get_adcirc_grid_from_ds ds in
  ag <- attach_element_areas ag ;;
  ' (ag, got_kdtree) <- ComputeTree got_kdtree ag ;;
  q <- ComputeQuery geopoints ag nearest_neighbors ;;
  r <- ComputeBasisRepresentation geopoints ag q ;;
  red <- ConstructReducedWaterLevelData_from_ds ds ag r variable_name ;;
  excluded <- mapM (fun i => p <- py_index geopoints i ;;
                             Ok {| ex_index := i + 1;
                                   ex_lon := fst p; ex_lat := snd p |})
                   (outside_elements r) ;;
  Ok (final_reduced_data red, final_meta_data red, excluded, got_kdtree).

(* ================================================================== *)
(** * Year-range validation: [return_sorted_years] *)
(* ================================================================== *)

Inductive message : Type :=
| Msg_out_of_range (year_tuple : Z * Z)
    (* One or more specified years are out of range: ... *)
| Msg_available (years : list Z)
    (* Available years = ... *)
| Msg_year_range (year_tuple : Z * Z).
    (* Year range: ... *)

(** [y if y in YEARS else None] *)
Definition in_years (y : Z) : option Z :=
  if existsb (Z.eqb y) YEARS then Some y else None.

(** [tuple(sorted((a, b)))] of two values that are integers or [None]:
    the comparison of [None] with anything raises [TypeError]. *)
Definition sorted_pair (a b : option Z) : result (Z * Z) :=
  match a, b with
  | Some a, Some b => if b <? a then Ok (b, a) else Ok (a, b)
  | _, _ => Raise TypeError
  end.

(** [all(year_tuple)]: both entries are truthy, an integer when it is not
    zero. *)
Definition all_truthy (year_tuple : Z * Z) : bool :=
  negb (fst year_tuple =? 0) && negb (snd year_tuple =? 0).

(** [return_sorted_years(year_tuple)]: what was printed, and the outcome. *)
Definition return_sorted_years (year_tuple : Z * Z)
  : list message * result (Z * Z) :=
  let start_year := in_years (fst year_tuple) in
  let end_year := in_years (snd year_tuple) in
  if all_truthy year_tuple then
    match sorted_pair start_year end_year with
    | Ok yt => ([Msg_year_range yt], Ok yt)
    | Raise e => ([], Raise e)
    end
  else
    ([Msg_out_of_range year_tuple; Msg_available YEARS], Raise SystemExit).

(* ================================================================== *)
(** * Vocabulary of the statements *)
(* ================================================================== *)

(** The signed area of a triangle with finite vertices. *)
Definition area_Qc (a1 b1 a2 b2 a3 b3 : Qc) : Qc :=
  ((a1 * (b2 - b3) + a2 * (b3 - b1) + a3 * (b1 - b2)) / (1 + 1))%Qc.

(** The position [l[i]] reads in a sequence of length [n]. *)
Definition py_pos (n : nat) (i : Z) : option nat :=
  let pos := if i <? 0 then Z.of_nat n + i else i in
  if (0 <=? pos) && (pos <? Z.of_nat n) then Some (Z.to_nat pos) else None.

(** [-1e-4 <= v <= 1 + 1e-4] *)
Definition in_tolerance (v : float64) : Prop :=
  fle (Fin (Q2Qc (-1 # 10000))) v = true /\
  fle v (Fin (Q2Qc (10001 # 10000))) = true.

(** The candidate element [jk] is flagged "within" for the point [p]. *)
Definition flagged_within (ag : agdict) (p : point) (jk : Z) : Prop :=
  exists ph, basis2d_at ag p jk = Ok ph /\ within_row ph = true.

(** The candidates of one point, nearest first, with their weights. *)
Definition candidates (ag : agdict) (p : point) (row : list Z)
  : result (list (phi * Z)) :=
  mapM (fun jk => ph <- basis2d_at ag p jk ;; Ok (ph, jk)) row.

(** The tie-break as the specification words it: the first candidate
    flagged within, in the order of the spatial index, or the unresolved
    assignment when there is none. *)
Definition pick_nearest_within (cands : list (phi * Z)) : phi * Z * bool :=
  match find (fun c => within_row (fst c)) cands with
  | Some (ph, jk) => (ph, jk, true)
  | None => (nan3, NOT_FOUND, false)
  end.

(** The array [j] has one row per point and [number_neighbors] columns. *)
Definition well_shaped (q : query_results) : Prop :=
  Forall (fun row => length row = number_neighbors q) (elements q).

(** What one point sees of one pass of the second loop. *)
Definition seen_at (i : nat) (tab : list phi * (list Z * list bool))
  (c : phi * Z) : Prop :=
  nth_error (fst tab) i = Some (fst c) /\
  nth_error (fst (snd tab)) i = Some (snd c) /\
  nth_error (snd (snd tab)) i = Some (within_row (fst c)).

(** No candidate of the row is flagged within. *)
Definition unresolved (ag : agdict) (p : point) (row : list Z) : Prop :=
  forall jk, In jk row -> ~ flagged_within ag p jk.

(** A list of distances in ascending order. *)
Definition ascending (l : list float64) : Prop :=
  forall a b da db, (a <= b)%nat -> nth_error l a = Some da ->
                    nth_error l b = Some db -> fle da db = true.

(** A distance: a finite value or +inf. *)
Definition is_distance (d : float64) : bool :=
  match d with Fin _ | Inf false => true | _ => false end.

(** The order of the neighbours of a query. *)
Definition nearer (x y : neighbor) : Prop := fle (fst x) (fst y) = true.

(** A point with finite coordinates. *)
Definition finite_point (p : point) : Prop :=
  isfinite (fst p) = true /\ isfinite (snd p) = true.

(** The closed form of the specification:
    [w1*series(n1,t) + w2*series(n2,t) + w3*series(n3,t)]. *)
Definition weighted_sum (w1 w2 w3 s1 s2 s3 : float64) : float64 :=
  (w1 * s1 + w2 * s2 + w3 * s3)%F.

(** The areas array is the one [attach_element_areas] computes from the
    mesh held by [ag]. *)
Definition areas_attached (ag : agdict) : Prop :=
  exists ar, areas ag = Some ar /\
             mapM (element_area (lon ag) (lat ag)) (ele ag) = Ok ar.


(* ================================================================== *)
(** * Worked meshes *)
(* ================================================================== *)

(** The unit right triangle of the specification's scenario: vertices
    (0,0), (1,0), (0,1), one element, nodal values 1, 2, 3. *)
Definition unit_ds : dataset :=
  {| ds_x := [of_Z 0; of_Z 1; of_Z 0];
     ds_y := [of_Z 0; of_Z 0; of_Z 1];
     ds_element := [(1, 2, 3)];
     ds_depth := [of_Z 0; of_Z 0; of_Z 0];
     ds_time := [0];
     ds_variables :=
       [("zeta"%string,
         {| dims := ["time"; "node"]%string;
            data := Arr2 [[of_Z 1; of_Z 2; of_Z 3]] |})] |}.

(** Two triangles sharing the edge from (0,0) to (0,1): (0,0),(1,0),(0,1)
    and (0,0),(0,1),(-2,1). *)
Definition two_ds : dataset :=
  {| ds_x := [of_Z 0; of_Z 1; of_Z 0; of_Z (-2)];
     ds_y := [of_Z 0; of_Z 0; of_Z 1; of_Z 1];
     ds_element := [(1, 2, 3); (1, 3, 4)];
     ds_depth := [of_Z 0; of_Z 0; of_Z 0; of_Z 0];
     ds_time := [0; 3600];
     ds_variables :=
       [("zeta"%string,
         {| dims := ["time"; "node"]%string;
            data := Arr2 [[of_Z 1; of_Z 2; of_Z 3; of_Z 4];
                          [of_Z 2; of_Z 4; of_Z 6; of_Z 8]] |})] |}.

(** Three collinear nodes: one element of zero area. *)
Definition flat_ds : dataset :=
  {| ds_x := [of_Z 0; of_Z 1; of_Z 2];
     ds_y := [of_Z 0; of_Z 1; of_Z 2];
     ds_element := [(1, 2, 3)];
     ds_depth := [of_Z 0; of_Z 0; of_Z 0];
     ds_time := [0];
     ds_variables := [] |}.

(** A point on the shared edge, a point inside the first triangle, a point
    outside the mesh. *)
Definition on_edge : point := (Fin (Q2Qc 0), Fin (Q2Qc (1 # 2))).
Definition inside : point := (Fin (Q2Qc (1 # 4)), Fin (Q2Qc (1 # 4))).
Definition far_away : point := (Fin (Q2Qc 5), Fin (Q2Qc 5)).
Definition two_points : list point := [on_edge; inside; far_away].

Definition attached (ds : dataset) : agdict :=
  match attach_element_areas (get_adcirc_grid_from_ds ds) with
  | Ok ag => ag
  | Raise _ => get_adcirc_grid_from_ds ds
  end.

Definition with_tree (ds : dataset) : agdict :=
  match ComputeTree None (attached ds) with
  | Ok (ag, _) => ag
  | Raise _ => attached ds
  end.

Definition no_query : query_results :=
  {| distance := []; elements := []; number_neighbors := 0; geopoints := [] |}.

Definition queried (ds : dataset) (pts : list point) (k : nat) : query_results :=
  match ComputeQuery pts (with_tree ds) k with
  | Ok q => q
  | Raise _ => no_query
  end.

Definition resolved (ds : dataset) (pts : list point) (k : nat) : basis_results :=
  match ComputeBasisRepresentation pts (with_tree ds) (queried ds pts k) with
  | Ok r => r
  | Raise _ => {| query := no_query; final_weights := []; final_jvals := [];
                  final_status := []; outside_elements := [] |}
  end.

Definition nth_phi (l : list phi) (i : nat) : phi := nth i l nan3.

Definition stored_area (ag : agdict) (i : nat) : Qc :=
  match areas ag with
  | Some ar => match nth i ar NaN with Fin a => a | _ => 0%Qc end
  | None => 0%Qc
  end.


Definition reduced_frame (t : list Z) (data_list : list (list (list float64)))
  (fw : list phi) : dataframe :=
  match WaterLevelReductions t data_list fw with
  | Ok df => df
  | Raise _ => {| df_index := []; df_columns := [] |}
  end.

Definition half : float64 := Fin (Q2Qc (1 # 2)).
Definition quarter : float64 := Fin (Q2Qc (1 # 4)).

Definition batch (ds : dataset) (pts : list point) (j : list Z) : list phi :=
  match basis2d (attached ds) pts j with Ok l => l | Raise _ => [] end.

(** Equality of two values, not-a-number being equal to itself here. *)
Definition feqb (x y : float64) : bool :=
  match x, y with
  | Fin a, Fin b => Qceqb a b
  | Inf s, Inf t => Bool.eqb s t
  | NaN, NaN => true
  | _, _ => false
  end.

(** The distances of the two candidates of [on_edge], nearest first. *)
Definition on_edge_distances : list float64 :=
  Eval vm_compute in nth 0 (distance (queried two_ds two_points 2)) [].

Definition w0 (p : phi) : float64 := fst (fst p).
Definition w1 (p : phi) : float64 := snd (fst p).
Definition w2 (p : phi) : float64 := snd p.

(* ================================================================== *)
(** * Vocabulary of the further properties *)
(* ================================================================== *)

(** A 1-based node number the mesh arrays of [ds] can be read at once it
    is made 0-based: Python indexing takes [1-n .. n]. *)
Definition node_number_accepted (ds : dataset) (v : Z) : Prop :=
  (- Z.of_nat (length (ds_x ds)) < v <= Z.of_nat (length (ds_x ds))) /\
  (- Z.of_nat (length (ds_y ds)) < v <= Z.of_nat (length (ds_y ds))).

Definition element_accepted (ds : dataset) (e : triple Z) : Prop :=
  node_number_accepted ds (fst (fst e)) /\
  node_number_accepted ds (snd (fst e)) /\
  node_number_accepted ds (snd e).

(** The weights of a finite point for an element with finite vertices and
    a nonzero area [A]. *)
Definition weights_Qc (a1 b1 a2 b2 a3 b3 A xp yp : Qc) : Qc * Qc * Qc :=
  ((((a2 * b3 - a3 * b2) + (b2 - b3) * xp + - (a2 - a3) * yp) / ((1 + 1) * A))%Qc,
   (((a3 * b1 - a1 * b3) + (b3 - b1) * xp + - (a3 - a1) * yp) / ((1 + 1) * A))%Qc,
   (((a1 * b2 - a2 * b1) + (b1 - b2) * xp + - (a1 - a2) * yp) / ((1 + 1) * A))%Qc).


(** The query results of one point of a batch. *)
Definition single_query (q : query_results) (p : point) (row : list Z)
  (drow : list float64) : query_results :=
  {| distance := [drow]; elements := [row];
     number_neighbors := number_neighbors q; geopoints := [p] |}.

(** A connectivity that names the node number 0. *)
Definition zero_ds : dataset :=
  {| ds_x := [of_Z 0; of_Z 1; of_Z 0];
     ds_y := [of_Z 0; of_Z 0; of_Z 1];
     ds_element := [(0, 1, 2)];
     ds_depth := [of_Z 0; of_Z 0; of_Z 0];
     ds_time := [0];
     ds_variables := [] |}.

(** The two-triangle mesh with its variable stored node-leading, and with
    a static depth variable. *)
Definition two_ds_node_leading : dataset :=
  {| ds_x := ds_x two_ds; ds_y := ds_y two_ds;
     ds_element := ds_element two_ds; ds_depth := ds_depth two_ds;
     ds_time := ds_time two_ds;
     ds_variables :=
       [("zeta"%string,
         {| dims := ["node"; "time"]%string;
            data := Arr2 [[of_Z 1; of_Z 2]; [of_Z 2; of_Z 4];
                          [of_Z 3; of_Z 6]; [of_Z 4; of_Z 8]] |});
        ("depth"%string,
         {| dims := ["node"]%string;
            data := Arr1 [of_Z 5; of_Z 6; of_Z 7; of_Z 8] |})] |}.

(** The resolution of a batch without unresolved points. *)
Definition edge_and_inside : list point := [on_edge; inside].

Definition reduced (ds : dataset) (ag : agdict) (r : basis_results)
  (v : string) : reduced_results :=
  match ConstructReducedWaterLevelData_from_ds ds ag r (Some v) with
  | Ok red => red
  | Raise _ => {| basis := r;
                  final_reduced_data := {| df_index := []; df_columns := [] |};
                  final_meta_data := [] |}
  end.

(** A mesh of 99999 elements, all on the first three nodes, and the
    assignment of one unresolved point. *)
Definition large_ag : agdict :=
  {| lon := [of_Z 0; of_Z 1; of_Z 0]; lat := [of_Z 0; of_Z 0; of_Z 1];
     ele := repeat (0, 1, 2) (Z.to_nat 99999);
     depth := []; areas := None; tree := None |}.

Definition one_unresolved : basis_results :=
  {| query := no_query; final_weights := [nan3]; final_jvals := [NOT_FOUND];
     final_status := [false]; outside_elements := [0] |}.

Definition pipeline_tables (ds : dataset) (pts : list point) (k : nat)
  : dataframe * list meta_row * list excluded_row * option kdtree :=
  match Combined_pipeline None ds (Some "zeta"%string) pts k with
  | Ok out => out
  | Raise _ => ({| df_index := []; df_columns := [] |}, [], [], None)
  end.

Definition first_nodes (ag : agdict) (j : Z)
  : triple float64 * triple float64 :=
  match py_index (ele ag) j with
  | Ok e => match element_nodes (lon ag) (lat ag) e with
            | Ok n => n
            | Raise _ => ((NaN, NaN, NaN), (NaN, NaN, NaN))
            end
  | Raise _ => ((NaN, NaN, NaN), (NaN, NaN, NaN))
  end.

(** The unit triangle given the tree cached for the two-triangle mesh. *)
Definition unit_with_cached_tree : agdict :=
  match ComputeTree (tree (with_tree two_ds)) (attached unit_ds) with
  | Ok (ag, _) => ag
  | Raise _ => attached unit_ds
  end.

Definition vertex_x (n : triple float64 * triple float64) (k : nat) : float64 :=
  let '((x1, x2, x3), _) := n in
  match k with 0%nat => x1 | 1%nat => x2 | _ => x3 end.

Definition vertex_y (n : triple float64 * triple float64) (k : nat) : float64 :=
  let '(_, (y1, y2, y3)) := n in
  match k with 0%nat => y1 | 1%nat => y2 | _ => y3 end.

(* ================================================================== *)
(** * Facts about the number model *)
(* ================================================================== *)

Lemma Qceqb_true (a b : Qc) : Qceqb a b = true <-> a = b.
Proof.
  unfold Qceqb. rewrite Qeq_bool_iff. split.
  - apply Qc_is_canon.
  - intros ->. reflexivity.
Qed.

Lemma Qceqb_false (a b : Qc) : Qceqb a b = false <-> a <> b.
Proof.
  rewrite <- Qceqb_true. destruct (Qceqb a b); split; congruence.
Qed.

Lemma Qceqb_refl (a : Qc) : Qceqb a a = true.
Proof. apply Qceqb_true. reflexivity. Qed.

Lemma Qc_two : Q2Qc (inject_Z 2) = (1 + 1)%Qc.
Proof. apply Qc_is_canon. reflexivity. Qed.

Lemma Qc_zero : Q2Qc (inject_Z 0) = 0%Qc.
Proof. apply Qc_is_canon. reflexivity. Qed.


Lemma Qc_two_neq_0 : (1 + 1)%Qc <> 0%Qc.
Proof.
  intro H. apply (f_equal this) in H. vm_compute in H. discriminate.
Qed.

(** On finite values [fle] is the order of the rationals. *)
Lemma fle_Fin (a b : Qc) : fle (Fin a) (Fin b) = true <-> (a <= b)%Qc.
Proof. simpl. unfold Qcleb, Qcle. apply Qle_bool_iff. Qed.

Lemma fle_not_nan_l (x y : float64) : fle x y = true -> isnan x = false.
Proof. destruct x; simpl; auto; discriminate. Qed.

Lemma fadd_comm (x y : float64) : (x + y)%F = (y + x)%F.
Proof.
  destruct x as [a|s|], y as [b|t|]; simpl; auto.
  - f_equal. ring.
  - destruct s, t; reflexivity.
Qed.

Lemma fadd_assoc (x y z : float64) : (x + (y + z))%F = (x + y + z)%F.
Proof.
  destruct x as [a|s|], y as [b|t|], z as [c|u|]; simpl; auto;
    try (f_equal; ring);
    try (destruct s; simpl; auto); try (destruct t; simpl; auto);
    try (destruct u; simpl; auto).
Qed.

Lemma fmul_comm (x y : float64) : (x * y)%F = (y * x)%F.
Proof.
  destruct x as [a|s|], y as [b|t|]; simpl; auto.
  - f_equal. ring.
  - destruct (Qceqb a 0); auto. f_equal. apply xorb_comm.
  - destruct (Qceqb b 0); auto. f_equal. apply xorb_comm.
  - f_equal. apply xorb_comm.
Qed.

Lemma fadd_0_r (x : float64) : (x + of_Z 0)%F = x.
Proof.
  destruct x; simpl; auto. f_equal. rewrite Qc_zero. ring.
Qed.

Lemma fmul_nan_r (x : float64) : (x * NaN)%F = NaN.
Proof. destruct x; reflexivity. Qed.

(** A finite sum, difference, product or quotient by two has finite
    operands. *)
Lemma fadd_fin_inv (x y : float64) (c : Qc) :
  (x + y)%F = Fin c -> exists a b, x = Fin a /\ y = Fin b.
Proof.
  destruct x as [a|s|], y as [b|t|]; simpl; try discriminate; eauto.
  all: destruct s, t; discriminate.
Qed.

Lemma fneg_fin_inv (x : float64) (c : Qc) :
  (- x)%F = Fin c -> exists a, x = Fin a.
Proof. destruct x; simpl; try discriminate; eauto. Qed.

Lemma fsub_fin_inv (x y : float64) (c : Qc) :
  (x - y)%F = Fin c -> exists a b, x = Fin a /\ y = Fin b.
Proof.
  unfold fsub. intros H. apply fadd_fin_inv in H as (a & b & -> & H).
  apply fneg_fin_inv in H as (b' & ->). eauto.
Qed.

Lemma fmul_fin_inv (x y : float64) (c : Qc) :
  (x * y)%F = Fin c -> exists a b, x = Fin a /\ y = Fin b.
Proof.
  destruct x as [a|s|], y as [b|t|]; simpl; try discriminate; eauto.
  - destruct (Qceqb a 0); discriminate.
  - destruct (Qceqb b 0); discriminate.
Qed.

Lemma fdiv_two_fin_inv (x : float64) (c : Qc) :
  (x / two)%F = Fin c -> exists a, x = Fin a.
Proof. destruct x; simpl; try discriminate; eauto. Qed.

(** A finite signed area has finite vertex coordinates. *)
Lemma signed_area_fin_inv (x1 y1 x2 y2 x3 y3 : float64) (a : Qc) :
  signed_area x1 y1 x2 y2 x3 y3 = Fin a ->
  exists a1 b1 a2 b2 a3 b3,
    x1 = Fin a1 /\ y1 = Fin b1 /\ x2 = Fin a2 /\ y2 = Fin b2 /\
    x3 = Fin a3 /\ y3 = Fin b3.
Proof.
  unfold signed_area. intros H.
  apply fdiv_two_fin_inv in H as (s & H).
  apply fadd_fin_inv in H as (s12 & s3 & H12 & H3).
  apply fadd_fin_inv in H12 as (s1 & s2 & H1 & H2).
  apply fmul_fin_inv in H1 as (a1 & d23 & -> & H23).
  apply fmul_fin_inv in H2 as (a2 & d31 & -> & H31).
  apply fmul_fin_inv in H3 as (a3 & d12 & -> & H12).
  apply fsub_fin_inv in H23 as (b2 & b3 & -> & ->).
  apply fsub_fin_inv in H31 as (b3' & b1 & _ & ->).
  exists a1, b1, a2, b2, a3, b3. repeat split; reflexivity.
Qed.

Lemma signed_area_Fin (a1 b1 a2 b2 a3 b3 : Qc) :
  signed_area (Fin a1) (Fin b1) (Fin a2) (Fin b2) (Fin a3) (Fin b3)
  = Fin (area_Qc a1 b1 a2 b2 a3 b3).
Proof.
  unfold signed_area, area_Qc, two, of_Z. simpl.
  rewrite Qc_two.
  destruct (Qceqb (1 + 1) 0) eqn:E.
  - apply Qceqb_true in E. destruct (Qc_two_neq_0 E).
  - f_equal.
Qed.

(* ================================================================== *)
(** * Facts about [mapM] and Python indexing *)
(* ================================================================== *)

Lemma mapM_length {A B} (f : A -> result B) (l : list A) (bs : list B) :
  mapM f l = Ok bs -> length bs = length l.
Proof.
  revert bs. induction l as [|a l IH]; simpl; intros bs H.
  - inversion H. reflexivity.
  - destruct (f a); simpl in H; try discriminate.
    destruct (mapM f l); simpl in H; try discriminate.
    inversion H. simpl. f_equal. apply IH. reflexivity.
Qed.

Lemma mapM_nth_error {A B} (f : A -> result B) (l : list A) (bs : list B)
      (i : nat) (a : A) :
  mapM f l = Ok bs -> nth_error l i = Some a ->
  exists b, f a = Ok b /\ nth_error bs i = Some b.
Proof.
  revert bs i. induction l as [|a' l IH]; simpl; intros bs i H Hi.
  - destruct i; discriminate.
  - destruct (f a') as [b'|] eqn:Ef; simpl in H; try discriminate.
    destruct (mapM f l) as [bs'|] eqn:Em; simpl in H; try discriminate.
    inversion H; subst bs. destruct i as [|i]; simpl in *.
    + inversion Hi; subst. eauto.
    + eapply IH; eauto.
Qed.

Lemma mapM_nth_error_inv {A B} (f : A -> result B) (l : list A) (bs : list B)
      (i : nat) (b : B) :
  mapM f l = Ok bs -> nth_error bs i = Some b ->
  exists a, nth_error l i = Some a /\ f a = Ok b.
Proof.
  intros H Hb.
  destruct (nth_error l i) as [a|] eqn:Ea.
  - destruct (mapM_nth_error _ _ _ _ _ H Ea) as (b' & Hf & Hb').
    rewrite Hb in Hb'. inversion Hb'; subst. eauto.
  - apply nth_error_None in Ea. apply mapM_length in H.
    assert (i < length bs)%nat by (apply nth_error_Some; congruence). lia.
Qed.

Lemma mapM_ok {A B} (f : A -> result B) (l : list A) :
  (forall a, In a l -> exists b, f a = Ok b) -> exists bs, mapM f l = Ok bs.
Proof.
  induction l as [|a l IH]; simpl; intros H.
  - eauto.
  - destruct (H a) as (b & Hb); auto.
    destruct IH as (bs & Hbs); auto.
    rewrite Hb, Hbs. simpl. eauto.
Qed.

Lemma py_index_spec {A} (l : list A) (i : Z) (a : A) :
  py_index l i = Ok a <->
  exists k, py_pos (length l) i = Some k /\ nth_error l k = Some a.
Proof.
  unfold py_index, py_pos.
  destruct ((0 <=? (if i <? 0 then Z.of_nat (length l) + i else i))
            && ((if i <? 0 then Z.of_nat (length l) + i else i)
                  <? Z.of_nat (length l))).
  - destruct (nth_error l _) eqn:E; split.
    + intros H; inversion H; subst. eauto.
    + intros (k & Hk & Ha). inversion Hk; subst. congruence.
    + discriminate.
    + intros (k & Hk & Ha). inversion Hk; subst. congruence.
  - split; [discriminate | intros (k & Hk & _); discriminate].
Qed.

Lemma py_pos_in_range (n : nat) (i : Z) :
  0 <= i < Z.of_nat n -> py_pos n i = Some (Z.to_nat i).
Proof.
  intros H. unfold py_pos.
  destruct (i <? 0) eqn:E; [apply Z.ltb_lt in E; lia|].
  replace (0 <=? i) with true by (symmetry; apply Z.leb_le; lia).
  replace (i <? Z.of_nat n) with true by (symmetry; apply Z.ltb_lt; lia).
  reflexivity.
Qed.

Lemma py_index_in_range {A} (l : list A) (i : Z) :
  0 <= i < Z.of_nat (length l) ->
  exists a, py_index l i = Ok a /\ nth_error l (Z.to_nat i) = Some a.
Proof.
  intros H.
  destruct (nth_error l (Z.to_nat i)) as [a|] eqn:E.
  - exists a. split; auto. apply py_index_spec.
    exists (Z.to_nat i). split; auto. apply py_pos_in_range; auto.
  - apply nth_error_None in E. lia.
Qed.

Lemma py_index_out_of_range {A} (l : list A) (i : Z) :
  i < - Z.of_nat (length l) \/ Z.of_nat (length l) <= i ->
  py_index l i = Raise IndexError.
Proof.
  intros H. unfold py_index.
  destruct (i <? 0) eqn:E.
  - apply Z.ltb_lt in E.
    destruct (0 <=? _) eqn:E1; simpl.
    + apply Z.leb_le in E1.
      destruct (_ <? Z.of_nat (length l)) eqn:E2; auto.
      lia.
    + reflexivity.
  - apply Z.ltb_ge in E.
    destruct (0 <=? i); simpl; auto.
    destruct (i <? Z.of_nat (length l)) eqn:E2; auto.
    apply Z.ltb_lt in E2. lia.
Qed.


Lemma mapM_py_index_ok {A B} (f : A -> result B) (l : list A) (bs : list B)
      (i : Z) (a : A) :
  mapM f l = Ok bs -> py_index l i = Ok a ->
  exists b, f a = Ok b /\ py_index bs i = Ok b.
Proof.
  intros Hm Ha.
  apply py_index_spec in Ha as (k & Hk & Ha).
  destruct (mapM_nth_error _ _ _ _ _ Hm Ha) as (b & Hf & Hb).
  exists b. split; auto. apply py_index_spec. exists k.
  rewrite (mapM_length _ _ _ Hm). auto.
Qed.

(** Row [i] of a batch evaluation is the evaluation of pair [i]. *)
Lemma basis2d_nth (ag : agdict) (xylist : list point) (j : list Z)
      (phis : list phi) (i : nat) (p : point) (ji : Z) :
  basis2d ag xylist j = Ok phis ->
  nth_error xylist i = Some p -> nth_error j i = Some ji ->
  exists ph, basis2d_at ag p ji = Ok ph /\ nth_error phis i = Some ph.
Proof.
  unfold basis2d. destruct (Nat.eqb _ _); [|discriminate].
  intros H Hp Hj.
  assert (Hc : nth_error (combine xylist j) i = Some (p, ji)).
  { clear H. revert j i Hp Hj.
    induction xylist as [|p' l IH]; intros [|j' j] [|i]; simpl;
      try discriminate; intros Hp Hj.
    - congruence.
    - apply IH; auto. }
  destruct (mapM_nth_error _ _ _ _ _ H Hc) as (ph & Hf & Hph). eauto.
Qed.

Lemma basis2d_length (ag : agdict) (xylist : list point) (j : list Z)
      (phis : list phi) :
  basis2d ag xylist j = Ok phis ->
  length phis = length xylist /\ length j = length xylist.
Proof.
  unfold basis2d. destruct (Nat.eqb _ _) eqn:E; [|discriminate].
  apply Nat.eqb_eq in E. intros H. apply mapM_length in H.
  rewrite length_combine in H. lia.
Qed.

(* ================================================================== *)
(** * Containment predicate *)
(* ================================================================== *)


Lemma one_plus_TOL : (of_Z 1 + TOL)%F = Fin (Q2Qc (10001 # 10000)).
Proof.
  unfold TOL, of_Z, fsub. cbv [fadd fneg]. apply (f_equal Fin).
  apply Qc_is_canon. reflexivity.
Qed.

Lemma zero_minus_TOL : (of_Z 0 - TOL)%F = Fin (Q2Qc (-1 # 10000)).
Proof.
  unfold TOL, of_Z, fsub. cbv [fadd fneg]. apply (f_equal Fin).
  apply Qc_is_canon. reflexivity.
Qed.

Lemma within_row_iff (p0 p1 p2 : float64) :
  within_row (p0, p1, p2) = true <->
  in_tolerance p0 /\ in_tolerance p1 /\ in_tolerance p2.
Proof.
  unfold within_row, all3, in_tolerance, fge.
  rewrite one_plus_TOL, zero_minus_TOL.
  rewrite !andb_true_iff. tauto.
Qed.

Lemma within_row_not_nan (p : phi) :
  within_row p = true -> all3 isnan p = false.
Proof.
  destruct p as [[p0 p1] p2]. intros H.
  apply within_row_iff in H as ((_ & H0) & _).
  apply fle_not_nan_l in H0. simpl. rewrite H0. reflexivity.
Qed.


(* ================================================================== *)
(** * The basis evaluator *)
(* ================================================================== *)

Lemma basis2d_row_Fin (a1 b1 a2 b2 a3 b3 A xp yp : Qc) :
  A <> 0%Qc ->
  basis2d_row (Fin a1) (Fin b1) (Fin a2) (Fin b2) (Fin a3) (Fin b3)
              (Fin A) (Fin xp) (Fin yp)
  = (Fin (((a2 * b3 - a3 * b2) + (b2 - b3) * xp + - (a2 - a3) * yp)
          / ((1 + 1) * A))%Qc,
     Fin (((a3 * b1 - a1 * b3) + (b3 - b1) * xp + - (a3 - a1) * yp)
          / ((1 + 1) * A))%Qc,
     Fin (((a1 * b2 - a2 * b1) + (b1 - b2) * xp + - (a1 - a2) * yp)
          / ((1 + 1) * A))%Qc).
Proof.
  intros HA. unfold basis2d_row, two, of_Z.
  cbn [fadd fsub fmul fneg fdiv]. rewrite Qc_two.
  assert (E : Qceqb ((1 + 1) * A) 0 = false).
  { apply Qceqb_false. intros H. apply Qcmult_integral in H as [H|H].
    - exact (Qc_two_neq_0 H).
    - exact (HA H). }
  rewrite E. reflexivity.
Qed.


(** With a zero area every weight is an infinity or not-a-number. *)
Lemma basis2d_row_zero_area (x1 y1 x2 y2 x3 y3 xp yp : float64) :
  all3 (fun v => negb (isfinite v))
       (basis2d_row x1 y1 x2 y2 x3 y3 (Fin 0%Qc) xp yp) = true.
Proof.
  unfold basis2d_row, all3.
  assert (Hz : (two * Fin 0%Qc)%F = Fin 0%Qc).
  { unfold two, of_Z. simpl. apply (f_equal Fin). ring. }
  rewrite Hz.
  assert (Hd : forall n, negb (isfinite (n / Fin 0%Qc)%F) = true).
  { intros [n|s|]; unfold fdiv; try reflexivity.
    rewrite Qceqb_refl. destruct (Qceqb n 0); reflexivity. }
  rewrite !Hd. reflexivity.
Qed.

Lemma not_finite_not_within (p : phi) :
  all3 (fun v => negb (isfinite v)) p = true -> within_row p = false.
Proof.
  destruct p as [[p0 p1] p2]. unfold all3. rewrite !andb_true_iff.
  intros [[H0 _] _].
  destruct (within_row (p0, p1, p2)) eqn:E; auto.
  apply within_row_iff in E as ((Hlo & Hhi) & _).
  destruct p0 as [q|[|]|]; simpl in *; discriminate.
Qed.

Lemma not_finite_not_all_finite (p : phi) :
  all3 (fun v => negb (isfinite v)) p = true -> all3 isfinite p = true -> False.
Proof.
  destruct p as [[p0 p1] p2]. unfold all3.
  destruct (isfinite p0); cbn [negb andb]; congruence.
Qed.


Lemma attach_element_areas_inv (ag0 ag : agdict) :
  attach_element_areas ag0 = Ok ag ->
  lon ag = lon ag0 /\ lat ag = lat ag0 /\ ele ag = ele ag0 /\
  tree ag = tree ag0 /\
  exists ar, areas ag = Some ar /\
             mapM (element_area (lon ag) (lat ag)) (ele ag) = Ok ar.
Proof.
  unfold attach_element_areas. intros H.
  destruct (mapM _ (ele ag0)) as [ar|] eqn:E; simpl in H; try discriminate.
  inversion H; subst ag; simpl. repeat split; eauto.
Qed.

Lemma element_area_inv (x y : list float64) (e : triple Z) (A : float64) :
  element_area x y e = Ok A ->
  exists x1 x2 x3 y1 y2 y3,
    element_nodes x y e = Ok ((x1, x2, x3), (y1, y2, y3)) /\
    A = signed_area x1 y1 x2 y2 x3 y3.
Proof.
  unfold element_area. intros H.
  destruct (element_nodes x y e) as [[[[x1 x2] x3] [[y1 y2] y3]]|];
    simpl in H; try discriminate.
  inversion H. exists x1, x2, x3, y1, y2, y3. auto.
Qed.


Lemma isfinite_Fin (v : float64) : isfinite v = true -> exists a, v = Fin a.
Proof. destruct v; simpl; try discriminate; eauto. Qed.

Lemma py_index_Forall {A} (P : A -> Prop) (l : list A) (i : Z) (a : A) :
  Forall P l -> py_index l i = Ok a -> P a.
Proof.
  intros HF H. apply py_index_spec in H as (k & _ & H).
  apply nth_error_In in H. rewrite Forall_forall in HF. auto.
Qed.

Lemma element_nodes_finite (x y : list float64) (e : triple Z)
      (x1 x2 x3 y1 y2 y3 : float64) :
  Forall (fun v => isfinite v = true) x ->
  Forall (fun v => isfinite v = true) y ->
  element_nodes x y e = Ok ((x1, x2, x3), (y1, y2, y3)) ->
  exists a1 a2 a3 b1 b2 b3,
    x1 = Fin a1 /\ x2 = Fin a2 /\ x3 = Fin a3 /\
    y1 = Fin b1 /\ y2 = Fin b2 /\ y3 = Fin b3.
Proof.
  intros Hx Hy. destruct e as [[i1 i2] i3]. unfold element_nodes.
  destruct (py_index x i1) as [v1|] eqn:E1; simpl; try discriminate.
  destruct (py_index x i2) as [v2|] eqn:E2; simpl; try discriminate.
  destruct (py_index x i3) as [v3|] eqn:E3; simpl; try discriminate.
  destruct (py_index y i1) as [w1|] eqn:F1; simpl; try discriminate.
  destruct (py_index y i2) as [w2|] eqn:F2; simpl; try discriminate.
  destruct (py_index y i3) as [w3|] eqn:F3; simpl; try discriminate.
  intros H; inversion H; subst.
  destruct (isfinite_Fin _ (py_index_Forall _ _ _ _ Hx E1)) as (a1 & ->).
  destruct (isfinite_Fin _ (py_index_Forall _ _ _ _ Hx E2)) as (a2 & ->).
  destruct (isfinite_Fin _ (py_index_Forall _ _ _ _ Hx E3)) as (a3 & ->).
  destruct (isfinite_Fin _ (py_index_Forall _ _ _ _ Hy F1)) as (b1 & ->).
  destruct (isfinite_Fin _ (py_index_Forall _ _ _ _ Hy F2)) as (b2 & ->).
  destruct (isfinite_Fin _ (py_index_Forall _ _ _ _ Hy F3)) as (b3 & ->).
  exists a1, a2, a3, b1, b2, b3. repeat split; reflexivity.
Qed.

(** Once the areas are attached, [basis2d] raises for no element number
    the element array holds: there is no check of the stored area. *)
Lemma basis2d_at_total (ag0 ag : agdict) (p : point) (ji : Z) (e : triple Z) :
  attach_element_areas ag0 = Ok ag ->
  py_index (ele ag) ji = Ok e ->
  exists x1 x2 x3 y1 y2 y3 ar,
    element_nodes (lon ag) (lat ag) e = Ok ((x1, x2, x3), (y1, y2, y3)) /\
    areas ag = Some ar /\
    py_index ar ji = Ok (signed_area x1 y1 x2 y2 x3 y3) /\
    basis2d_at ag p ji
    = Ok (basis2d_row x1 y1 x2 y2 x3 y3 (signed_area x1 y1 x2 y2 x3 y3)
                      (fst p) (snd p)).
Proof.
  intros Hatt He.
  apply attach_element_areas_inv in Hatt as (_ & _ & _ & _ & ar & Har & Hm).
  destruct (mapM_py_index_ok _ _ _ _ _ Hm He) as (A & HA & Hidx).
  apply element_area_inv in HA as (x1 & x2 & x3 & y1 & y2 & y3 & Hn & ->).
  exists x1, x2, x3, y1, y2, y3, ar. repeat split; auto.
  unfold basis2d_at. rewrite He. simpl. rewrite Hn. simpl.
  rewrite Har. simpl. rewrite Hidx. reflexivity.
Qed.

(** C10.  On a mesh with finite coordinates and its areas attached,
    [basis2d] returns a weight triple for every element number of the mesh
    and every finite query point, never an error: the three weights are
    finite exactly when the stored signed area is nonzero, and for a
    zero-area element each of them is an infinity or not-a-number (and the
    containment flag is false). *)
Theorem basis2d_finite_iff_area_nonzero
  (ag0 ag : agdict) (xp yp : Qc) (ji : Z) (e : triple Z) :
  attach_element_areas ag0 = Ok ag ->
  Forall (fun v => isfinite v = true) (lon ag0) ->
  Forall (fun v => isfinite v = true) (lat ag0) ->
  py_index (ele ag) ji = Ok e ->
  exists ar A ph,
    areas ag = Some ar /\ py_index ar ji = Ok (Fin A) /\
    basis2d ag [(Fin xp, Fin yp)] [ji] = Ok [ph] /\
    (all3 isfinite ph = true <-> A <> 0%Qc) /\
    (A = 0%Qc ->
     all3 (fun v => negb (isfinite v)) ph = true /\
     basis2d_withinElement [ph] = [false]).
Proof.
  intros Hatt Hx Hy He.
  destruct (basis2d_at_total _ _ (Fin xp, Fin yp) _ _ Hatt He)
    as (x1 & x2 & x3 & y1 & y2 & y3 & ar & Hn & Har & Hidx & Hat).
  apply attach_element_areas_inv in Hatt as (Hlon & Hlat & _).
  rewrite <- Hlon in Hx. rewrite <- Hlat in Hy.
  destruct (element_nodes_finite _ _ _ _ _ _ _ _ _ Hx Hy Hn)
    as (a1 & a2 & a3 & b1 & b2 & b3 & -> & -> & -> & -> & -> & ->).
  rewrite signed_area_Fin in Hidx, Hat.
  set (A := area_Qc a1 b1 a2 b2 a3 b3) in *.
  eexists ar, A, _. split; [exact Har|]. split; [exact Hidx|].
  split.
  { unfold basis2d. cbn [length Nat.eqb combine mapM bind]. rewrite Hat.
    reflexivity. }
  cbn [fst snd].
  destruct (Qc_eq_dec A 0) as [E|E].
  - rewrite E. pose proof (basis2d_row_zero_area (Fin a1) (Fin b1) (Fin a2)
                             (Fin b2) (Fin a3) (Fin b3) (Fin xp) (Fin yp)) as Hz.
    split; [split|].
    + intros Hf. destruct (not_finite_not_all_finite _ Hz Hf).
    + intros Hne. destruct (Hne eq_refl).
    + intros _. split; [exact Hz|].
      cbn [basis2d_withinElement map].
      rewrite (not_finite_not_within _ Hz). reflexivity.
  - split; [split|].
    + intros _. exact E.
    + intros _. rewrite basis2d_row_Fin by exact E. reflexivity.
    + intros E0. destruct (E E0).
Qed.

(* ================================================================== *)
(** * The containment resolver *)
(* ================================================================== *)

Lemma nth_error_combine {A B} (l1 : list A) (l2 : list B) (i : nat) :
  nth_error (combine l1 l2) i
  = match nth_error l1 i, nth_error l2 i with
    | Some a, Some b => Some (a, b)
    | _, _ => None
    end.
Proof.
  revert l2 i. induction l1 as [|a l1 IH]; intros [|b l2] [|i]; simpl; auto.
  destruct (nth_error l1 i); reflexivity.
Qed.

Lemma combine_app_same_length {A B} (xs xs' : list A) (ys ys' : list B)
      (Hlen : length xs = length ys) :
  combine (xs ++ xs') (ys ++ ys') = combine xs ys ++ combine xs' ys'.
Proof.
  revert ys Hlen. induction xs as [|x xs IH]; intros [|y ys] Hlen; simpl in *;
    try discriminate; auto.
  f_equal. apply IH. lia.
Qed.

Lemma combine_rev {A B} (l1 : list A) (l2 : list B) :
  length l1 = length l2 ->
  combine (rev l1) (rev l2) = rev (combine l1 l2).
Proof.
  revert l2. induction l1 as [|a l1 IH]; intros [|b l2]; simpl;
    try discriminate; auto.
  intros H. rewrite combine_app_same_length by (rewrite !length_rev; lia).
  rewrite IH by lia. reflexivity.
Qed.

Lemma nth_error_mask_assign {A} (mask : list bool) (src dst : list A)
      (i : nat) (b : bool) (x y : A) :
  nth_error mask i = Some b -> nth_error src i = Some x ->
  nth_error dst i = Some y ->
  nth_error (mask_assign mask src dst) i = Some (if b then x else y).
Proof.
  revert src dst i.
  induction mask as [|m mask IH]; intros [|s src] [|d dst] [|i]; simpl;
    try discriminate.
  - intros Hb Hx Hy. inversion Hb; inversion Hx; inversion Hy; subst.
    reflexivity.
  - apply IH.
Qed.

Lemma nth_error_repeat {A} (a : A) (n i : nat) :
  (i < n)%nat -> nth_error (repeat a n) i = Some a.
Proof.
  revert i. induction n; intros [|i] H; simpl; try lia; auto.
  apply IHn. lia.
Qed.

Lemma Forall2_of_nth_error {A B} (R : A -> B -> Prop)
      (xs : list A) (ys : list B)
      (Hlen : length xs = length ys)
      (Hnth : forall n x y, nth_error xs n = Some x ->
                            nth_error ys n = Some y -> R x y) :
  Forall2 R xs ys.
Proof.
  revert ys Hlen Hnth.
  induction xs as [|x xs IH]; intros [|y ys] Hlen Hnth; simpl in *;
    try discriminate; constructor.
  - apply (Hnth 0%nat); reflexivity.
  - apply IH; [lia|]. intros n x' y' Hx Hy. apply (Hnth (S n)); assumption.
Qed.

Lemma pick_nearest_within_cons (ph : phi) (jk : Z) (cands : list (phi * Z)) :
  pick_nearest_within ((ph, jk) :: cands)
  = if within_row ph then (ph, jk, true) else pick_nearest_within cands.
Proof.
  unfold pick_nearest_within. cbn [find fst].
  destruct (within_row ph); reflexivity.
Qed.

(** The second loop, seen from one point: the nearest candidate flagged
    within has written last. *)
Lemma overwrite_loop_nth (i : nat)
      (tabs : list (list phi * (list Z * list bool)))
      (cands : list (phi * Z)) (init : assignment) :
  Forall2 (seen_at i) tabs cands ->
  nth_error (fst (fst init)) i = Some nan3 ->
  nth_error (snd (fst init)) i = Some NOT_FOUND ->
  nth_error (snd init) i = Some false ->
  forall fw fj fs,
    fold_left overwrite (rev tabs) init = (fw, fj, fs) ->
    nth_error fw i = Some (fst (fst (pick_nearest_within cands))) /\
    nth_error fj i = Some (snd (fst (pick_nearest_within cands))) /\
    nth_error fs i = Some (snd (pick_nearest_within cands)).
Proof.
  intros HF Hw Hj Hs.
  rewrite <- (rev_involutive (rev tabs)).
  rewrite <- fold_left_rev_right with (f := fun c a => overwrite a c).
  rewrite rev_involutive, rev_involutive.
  induction HF as [|tab c tabs cands Hseen HF IH]; simpl; intros fw fj fs Hfold.
  - destruct init as [[w0 j0] s0]. inversion Hfold; subst.
    unfold pick_nearest_within. simpl. auto.
  - destruct (fold_right (fun c a => overwrite a c) init tabs)
      as [[fw' fj'] fs'] eqn:Efold.
    destruct (IH _ _ _ eq_refl) as (Hw' & Hj' & Hs').
    destruct tab as [pvals [jvals testvals]]. destruct c as [ph jk].
    destruct Hseen as (Hp & Hjk & Ht). simpl in Hp, Hjk, Ht.
    unfold overwrite in Hfold. inversion Hfold; subst. clear Hfold.
    rewrite (nth_error_mask_assign _ _ _ _ _ _ _ Ht Hp Hw').
    rewrite (nth_error_mask_assign _ _ _ _ _ _ _ Ht Hjk Hj').
    rewrite (nth_error_mask_assign _ _ _ _ _ _ _ Ht Ht Hs').
    rewrite pick_nearest_within_cons.
    destruct (within_row ph) eqn:E; cbn [fst snd]; auto.
Qed.

Lemma nth_error_seq_inv (s n k a : nat) :
  nth_error (seq s n) k = Some a -> a = (s + k)%nat /\ (k < n)%nat.
Proof.
  revert s k. induction n; intros s [|k]; simpl; try discriminate.
  - intros H; inversion H. lia.
  - intros H. apply IHn in H. lia.
Qed.

Lemma nth_error_seq_lt (s n k : nat) :
  (k < n)%nat -> nth_error (seq s n) k = Some (s + k)%nat.
Proof.
  revert s k. induction n; intros s [|k] H; simpl; try lia.
  - f_equal. lia.
  - rewrite IHn by lia. f_equal. lia.
Qed.

Lemma nth_error_lt_Some {A} (l : list A) (k : nat) :
  (k < length l)%nat -> exists a, nth_error l k = Some a.
Proof.
  intros H. destruct (nth_error l k) eqn:E; eauto.
  apply nth_error_None in E. lia.
Qed.

Lemma column_nth {A} (j : list (list A)) (k : nat) (jk : list A) :
  column j k = Ok jk ->
  length jk = length j /\
  forall i row, nth_error j i = Some row ->
                exists v, nth_error row k = Some v /\ nth_error jk i = Some v.
Proof.
  unfold column. intros H. split; [eapply mapM_length; eauto|].
  intros i row Hrow.
  destruct (mapM_nth_error _ _ _ _ _ H Hrow) as (v & Hv & Hjk).
  exists v. split; auto.
  destruct (nth_error row k); inversion Hv; reflexivity.
Qed.

Lemma basis_tables_nth (xylist : list point) (ag : agdict) (q : query_results)
      (pl : list (list phi)) :
  basis_tables xylist ag q = Ok pl ->
  length pl = number_neighbors q /\
  forall k phk, nth_error pl k = Some phk ->
    exists jk, column (elements q) k = Ok jk /\ basis2d ag xylist jk = Ok phk.
Proof.
  unfold basis_tables. intros H. split.
  - rewrite (mapM_length _ _ _ H). apply length_seq.
  - intros k phk Hk.
    destruct (mapM_nth_error_inv _ _ _ _ _ H Hk) as (k' & Hk' & Hf).
    apply nth_error_seq_inv in Hk' as [-> _]. simpl in Hf.
    destruct (column (elements q) k) as [jk|]; simpl in Hf; try discriminate.
    eauto.
Qed.

Lemma transpose_nth {A} (j jT : list (list A)) (K : nat) :
  transpose j = Ok jT -> j <> [] ->
  Forall (fun row => length row = K) j ->
  length jT = K /\
  forall k col, nth_error jT k = Some col -> column j k = Ok col.
Proof.
  unfold transpose. destruct j as [|row j']; [congruence|].
  intros H _ HF. inversion HF as [|? ? Hrow _]; subst.
  split.
  - rewrite (mapM_length _ _ _ H). apply length_seq.
  - intros k col Hk.
    destruct (mapM_nth_error_inv _ _ _ _ _ H Hk) as (k' & Hk' & Hf).
    apply nth_error_seq_inv in Hk' as [-> _]. exact Hf.
Qed.

Lemma ComputeBasisRepresentation_inv
      (xylist : list point) (ag : agdict) (q : query_results)
      (r : basis_results) :
  ComputeBasisRepresentation xylist ag q = Ok r ->
  exists phival0 rest jT,
    basis_tables xylist ag q = Ok (phival0 :: rest) /\
    transpose (elements q) = Ok jT /\
    fold_left overwrite
      (combine (rev (phival0 :: rest))
         (combine (rev jT)
                  (rev (map basis2d_withinElement (phival0 :: rest)))))
      (repeat nan3 (length phival0), repeat NOT_FOUND (length phival0),
       repeat false (length phival0))
    = (final_weights r, final_jvals r, final_status r) /\
    query r = q /\
    outside_elements r = argwhere_all_nan (final_weights r).
Proof.
  unfold ComputeBasisRepresentation. intros H.
  destruct (basis_tables xylist ag q) as [pl|]; simpl in H; try discriminate.
  destruct pl as [|phival0 rest]; simpl in H; try discriminate.
  destruct (transpose (elements q)) as [jT|]; try discriminate.
  cbn [bind] in H.
  destruct (fold_left overwrite _ _) as [[fw fj] fs] eqn:E.
  inversion H; subst r. cbn.
  exists phival0, rest, jT. repeat split; auto.
Qed.

Lemma candidates_nth (ag : agdict) (p : point) (row : list Z)
      (cands : list (phi * Z)) (k : nat) (c : phi * Z) :
  candidates ag p row = Ok cands -> nth_error cands k = Some c ->
  nth_error row k = Some (snd c) /\ basis2d_at ag p (snd c) = Ok (fst c).
Proof.
  unfold candidates. intros H Hc.
  destruct (mapM_nth_error_inv _ _ _ _ _ H Hc) as (jk & Hjk & Hf).
  destruct (basis2d_at ag p jk) as [ph|] eqn:E; simpl in Hf; try discriminate.
  inversion Hf; subst c. simpl. auto.
Qed.

Lemma candidates_nth_row (ag : agdict) (p : point) (row : list Z)
      (cands : list (phi * Z)) (k : nat) (jk : Z) :
  candidates ag p row = Ok cands -> nth_error row k = Some jk ->
  exists ph, basis2d_at ag p jk = Ok ph /\ nth_error cands k = Some (ph, jk).
Proof.
  unfold candidates. intros H Hjk.
  destruct (mapM_nth_error _ _ _ _ _ H Hjk) as (c & Hf & Hc).
  destruct (basis2d_at ag p jk) as [ph|] eqn:E; simpl in Hf; try discriminate.
  inversion Hf; subst c. eauto.
Qed.

(** The resolver, point by point: the assignment of point [i] is the
    nearest-within pick among its own candidates. *)
Lemma ComputeBasisRepresentation_point
      (xylist : list point) (ag : agdict) (q : query_results)
      (r : basis_results) (i : nat) (p : point) (row : list Z) :
  ComputeBasisRepresentation xylist ag q = Ok r ->
  well_shaped q ->
  nth_error xylist i = Some p -> nth_error (elements q) i = Some row ->
  exists cands,
    candidates ag p row = Ok cands /\
    nth_error (final_weights r) i = Some (fst (fst (pick_nearest_within cands))) /\
    nth_error (final_jvals r) i = Some (snd (fst (pick_nearest_within cands))) /\
    nth_error (final_status r) i = Some (snd (pick_nearest_within cands)).
Proof.
  intros H Hwf Hp Hrow.
  apply ComputeBasisRepresentation_inv in H
    as (phival0 & rest & jT & Htab & HjT & Hfold & _).
  set (pl := phival0 :: rest) in *.
  destruct (basis_tables_nth _ _ _ _ Htab) as (Hlen & Hnth).
  assert (Hrowlen : length row = number_neighbors q).
  { unfold well_shaped in Hwf. rewrite Forall_forall in Hwf.
    apply Hwf. eapply nth_error_In; eauto. }
  assert (Hne : elements q <> []).
  { intros E. rewrite E in Hrow. destruct i; discriminate. }
  destruct (transpose_nth _ _ _ HjT Hne Hwf) as (HlenT & HnthT).
  (* every candidate of the point has its weights *)
  assert (Hat : forall k jk, nth_error row k = Some jk ->
            exists phk colk ph,
              nth_error pl k = Some phk /\ column (elements q) k = Ok colk /\
              nth_error colk i = Some jk /\
              basis2d_at ag p jk = Ok ph /\ nth_error phk i = Some ph).
  { intros k jk Hk.
    assert (Hlt : (k < length pl)%nat).
    { rewrite Hlen, <- Hrowlen. apply nth_error_Some. congruence. }
    destruct (nth_error_lt_Some _ _ Hlt) as (phk & Hphk).
    destruct (Hnth _ _ Hphk) as (colk & Hcol & Hb).
    destruct (column_nth _ _ _ Hcol) as (_ & Hc).
    destruct (Hc _ _ Hrow) as (v & Hv & Hci).
    rewrite Hk in Hv. inversion Hv; subst v.
    destruct (basis2d_nth _ _ _ _ _ _ _ Hb Hp Hci) as (ph & Hph & Hphi).
    exists phk, colk, ph. auto. }
  destruct (mapM_ok (fun jk => ph <- basis2d_at ag p jk ;; Ok (ph, jk)) row)
    as (cands & Hcands).
  { intros jk Hin. apply In_nth_error in Hin as (k & Hk).
    destruct (Hat _ _ Hk) as (_ & _ & ph & _ & _ & _ & Hph & _).
    rewrite Hph. simpl. eauto. }
  exists cands. split; [exact Hcands|].
  assert (Hclen : length cands = length row)
    by (eapply mapM_length; eauto).
  rewrite combine_rev in Hfold.
  2:{ rewrite length_map. fold pl. lia. }
  rewrite combine_rev in Hfold.
  2:{ rewrite length_combine, length_map. fold pl. lia. }
  assert (Hi : (i < length phival0)%nat).
  { assert (H0 : nth_error pl 0 = Some phival0) by reflexivity.
    destruct (Hnth _ _ H0) as (jk & _ & Hb).
    apply basis2d_length in Hb as [-> _].
    apply nth_error_Some. congruence. }
  eapply overwrite_loop_nth; [| | | |exact Hfold];
    try (simpl; apply nth_error_repeat; exact Hi).
  apply Forall2_of_nth_error.
  - rewrite !length_combine, length_map. fold pl. lia.
  - intros k [phk [colk wk]] [ph jk] Htabk Hck.
    rewrite !nth_error_combine in Htabk.
    destruct (nth_error pl k) as [phk'|] eqn:Ephk; try discriminate.
    destruct (nth_error jT k) as [colk'|] eqn:Ecol; try discriminate.
    rewrite nth_error_map in Htabk. fold pl in Htabk. rewrite Ephk in Htabk.
    simpl in Htabk. inversion Htabk; subst phk' colk' wk. clear Htabk.
    destruct (candidates_nth _ _ _ _ _ _ Hcands Hck) as (Hrk & Hph).
    simpl in Hrk, Hph.
    destruct (Hat _ _ Hrk) as (phk' & colk' & ph' & Hphk' & Hcol' & Hci & Hph' & Hphi).
    rewrite Ephk in Hphk'. inversion Hphk'; subst phk'.
    rewrite (HnthT _ _ Ecol) in Hcol'. inversion Hcol'; subst colk'.
    rewrite Hph in Hph'. inversion Hph'; subst ph'.
    unfold seen_at. simpl. repeat split; auto.
    unfold basis2d_withinElement. rewrite nth_error_map, Hphi. reflexivity.
Qed.

Lemma pick_nearest_within_first (cands : list (phi * Z)) (m : nat)
      (ph : phi) (jm : Z) :
  nth_error cands m = Some (ph, jm) -> within_row ph = true ->
  (forall m' c, (m' < m)%nat -> nth_error cands m' = Some c ->
                within_row (fst c) = false) ->
  pick_nearest_within cands = (ph, jm, true).
Proof.
  revert m. induction cands as [|[ph' jk'] cands IH]; intros [|m] Hm Hw Hbefore;
    simpl in Hm; try discriminate; rewrite pick_nearest_within_cons.
  - inversion Hm; subst. rewrite Hw. reflexivity.
  - assert (E : within_row ph' = false).
    { apply (Hbefore 0%nat (ph', jk')); [lia|reflexivity]. }
    rewrite E.
    apply IH with (m := m); auto.
    intros m' c Hlt Hc. apply (Hbefore (S m') c); simpl; auto. lia.
Qed.

Lemma pick_nearest_within_cases (cands : list (phi * Z)) :
  (exists ph jk, pick_nearest_within cands = (ph, jk, true) /\
                 In (ph, jk) cands /\ within_row ph = true) \/
  (pick_nearest_within cands = (nan3, NOT_FOUND, false) /\
   forall c, In c cands -> within_row (fst c) = false).
Proof.
  unfold pick_nearest_within.
  destruct (find (fun c => within_row (fst c)) cands) as [[ph jk]|] eqn:E.
  - apply find_some in E as [Hin Hw]. left. exists ph, jk. auto.
  - right. split; auto. intros c Hc. apply (find_none _ _ E c Hc).
Qed.

Lemma unresolved_candidates (ag : agdict) (p : point) (row : list Z)
      (cands : list (phi * Z)) :
  candidates ag p row = Ok cands ->
  (unresolved ag p row <-> forall c, In c cands -> within_row (fst c) = false).
Proof.
  intros Hc. split.
  - intros Hu [ph jk] Hin. apply In_nth_error in Hin as (k & Hk).
    destruct (candidates_nth _ _ _ _ _ _ Hc Hk) as (Hrow & Hph). simpl in *.
    destruct (within_row ph) eqn:E; auto.
    exfalso. apply (Hu jk); [eapply nth_error_In; eauto|].
    exists ph. auto.
  - intros Hall jk Hin (ph & Hph & Hw).
    apply In_nth_error in Hin as (k & Hk).
    destruct (candidates_nth_row _ _ _ _ _ _ Hc Hk) as (ph' & Hph' & Hck).
    rewrite Hph in Hph'. inversion Hph'; subst ph'.
    apply nth_error_In in Hck. apply Hall in Hck. simpl in Hck. congruence.
Qed.

Lemma mask_assign_length {A} (mask : list bool) (src dst : list A) :
  length (mask_assign mask src dst) = length dst.
Proof.
  revert src dst. induction mask as [|m mask IH]; intros [|s src] [|d dst];
    simpl; auto.
Qed.

Lemma overwrite_loop_length
      (tabs : list (list phi * (list Z * list bool))) (init : assignment)
      (fw : list phi) (fj : list Z) (fs : list bool) :
  fold_left overwrite tabs init = (fw, fj, fs) ->
  length fw = length (fst (fst init)) /\
  length fj = length (snd (fst init)) /\
  length fs = length (snd init).
Proof.
  revert init. induction tabs as [|[pv [jv tv]] tabs IH]; simpl; intros init H.
  - rewrite H. simpl. auto.
  - apply IH in H. destruct init as [[w0 j0] s0]. simpl in H.
    rewrite !mask_assign_length in H. exact H.
Qed.

(** The shapes a successful resolution has. *)
Lemma ComputeBasisRepresentation_lengths
      (xylist : list point) (ag : agdict) (q : query_results)
      (r : basis_results) :
  ComputeBasisRepresentation xylist ag q = Ok r ->
  length (elements q) = length xylist /\
  length (final_weights r) = length xylist /\
  length (final_jvals r) = length xylist /\
  length (final_status r) = length xylist /\
  (1 <= number_neighbors q)%nat.
Proof.
  intros H.
  apply ComputeBasisRepresentation_inv in H
    as (phival0 & rest & jT & Htab & HjT & Hfold & _).
  destruct (basis_tables_nth _ _ _ _ Htab) as (Hlen & Hnth).
  destruct (Hnth 0%nat phival0 eq_refl) as (jk & Hcol & Hb).
  apply basis2d_length in Hb as [Hl1 Hl2].
  apply column_nth in Hcol as [Hl3 _].
  apply overwrite_loop_length in Hfold. simpl in Hfold.
  rewrite !repeat_length in Hfold. simpl in Hlen.
  repeat split; try lia.
Qed.

Lemma argwhere_all_nan_from (w : list phi) (s : nat) (z : Z) :
  In z (map fst (filter (fun ip => all3 isnan (snd ip))
                        (combine (map Z.of_nat (seq s (length w))) w))) <->
  exists i ph, z = Z.of_nat (s + i) /\ nth_error w i = Some ph /\
               all3 isnan ph = true.
Proof.
  revert s. induction w as [|ph w IH]; intros s; simpl.
  - split; [tauto|]. intros ([|i] & ph & _ & H & _); discriminate.
  - destruct (all3 isnan ph) eqn:E; simpl; rewrite IH; split.
    + intros [<-|(i & ph' & -> & Hi & Hn)].
      * exists 0%nat, ph. rewrite Nat.add_0_r. auto.
      * exists (S i), ph'. split; [f_equal; lia|]. auto.
    + intros ([|i] & ph' & -> & Hi & Hn); simpl in Hi.
      * left. f_equal. lia.
      * right. exists i, ph'. split; [f_equal; lia|]. auto.
    + intros (i & ph' & -> & Hi & Hn).
      exists (S i), ph'. split; [f_equal; lia|]. auto.
    + intros ([|i] & ph' & -> & Hi & Hn); simpl in Hi.
      * inversion Hi; subst. congruence.
      * exists i, ph'. split; [f_equal; lia|]. auto.
Qed.

Lemma argwhere_all_nan_spec (w : list phi) (z : Z) :
  In z (argwhere_all_nan w) <->
  exists i ph, z = Z.of_nat i /\ nth_error w i = Some ph /\
               all3 isnan ph = true.
Proof. apply (argwhere_all_nan_from w 0 z). Qed.

Lemma argwhere_all_nan_sorted_from (w : list phi) (s : nat) :
  StronglySorted Z.lt
    (map fst (filter (fun ip => all3 isnan (snd ip))
                     (combine (map Z.of_nat (seq s (length w))) w))).
Proof.
  revert s. induction w as [|ph w IH]; intros s; simpl.
  - constructor.
  - destruct (all3 isnan ph); simpl; [|apply IH].
    constructor; [apply IH|].
    apply Forall_forall. intros z Hz.
    apply argwhere_all_nan_from in Hz as (i & _ & -> & _). lia.
Qed.

Lemma argwhere_all_nan_sorted (w : list phi) :
  StronglySorted Z.lt (argwhere_all_nan w).
Proof. apply (argwhere_all_nan_sorted_from w 0). Qed.

(** The outside list is the list of the points without a candidate flagged
    within. *)
Lemma outside_elements_spec
      (xylist : list point) (ag : agdict) (q : query_results)
      (r : basis_results) (z : Z) :
  ComputeBasisRepresentation xylist ag q = Ok r ->
  well_shaped q ->
  (In z (outside_elements r) <->
   exists i p row, z = Z.of_nat i /\ nth_error xylist i = Some p /\
                   nth_error (elements q) i = Some row /\
                   unresolved ag p row).
Proof.
  intros H Hwf.
  destruct (ComputeBasisRepresentation_lengths _ _ _ _ H)
    as (Hle & Hlw & _).
  pose proof (ComputeBasisRepresentation_inv _ _ _ _ H)
    as (_ & _ & _ & _ & _ & _ & _ & Hout).
  rewrite Hout, argwhere_all_nan_spec. split.
  - intros (i & ph & -> & Hi & Hnan).
    assert (Hlt : (i < length xylist)%nat).
    { rewrite <- Hlw. apply nth_error_Some. congruence. }
    destruct (nth_error_lt_Some xylist i Hlt) as (p & Hp).
    rewrite <- Hle in Hlt.
    destruct (nth_error_lt_Some _ i Hlt) as (row & Hrow).
    exists i, p, row. repeat split; auto.
    destruct (ComputeBasisRepresentation_point _ _ _ _ _ _ _ H Hwf Hp Hrow)
      as (cands & Hc & Hw & _).
    apply (unresolved_candidates _ _ _ _ Hc).
    destruct (pick_nearest_within_cases cands)
      as [(ph' & jk & Hpick & _ & Hwithin)|[_ Hall]]; auto.
    rewrite Hpick in Hw. simpl in Hw. rewrite Hi in Hw.
    inversion Hw; subst ph'.
    apply within_row_not_nan in Hwithin. congruence.
  - intros (i & p & row & -> & Hp & Hrow & Hu).
    destruct (ComputeBasisRepresentation_point _ _ _ _ _ _ _ H Hwf Hp Hrow)
      as (cands & Hc & Hw & _).
    pose proof (proj1 (unresolved_candidates _ _ _ _ Hc) Hu) as Hall.
    destruct (pick_nearest_within_cases cands)
      as [(ph' & jk & _ & Hin & Hwithin)|[Hpick _]].
    + apply Hall in Hin. simpl in Hin. congruence.
    + rewrite Hpick in Hw. simpl in Hw. exists i, nan3. auto.
Qed.

(** C1.  Point [i] has the candidate row [row] (nearest first, with the
    distances [drow] in ascending order).  If the candidate at position
    [m] is flagged within and no candidate before it is, the final
    assignment of the point is that candidate: its element number, its
    weight triple and a true containment flag; and among all the
    candidates flagged within it comes first and has the smallest
    distance. *)
Theorem nearest_within_candidate_wins
  (xylist : list point) (ag : agdict) (q : query_results) (r : basis_results)
  (i : nat) (p : point) (row : list Z) (drow : list float64)
  (m : nat) (jm : Z) :
  ComputeBasisRepresentation xylist ag q = Ok r ->
  well_shaped q ->
  nth_error xylist i = Some p ->
  nth_error (elements q) i = Some row ->
  nth_error (distance q) i = Some drow ->
  ascending drow ->
  nth_error row m = Some jm ->
  flagged_within ag p jm ->
  (forall m' jk, (m' < m)%nat -> nth_error row m' = Some jk ->
                 ~ flagged_within ag p jk) ->
  exists ph,
    basis2d_at ag p jm = Ok ph /\
    nth_error (final_weights r) i = Some ph /\
    nth_error (final_jvals r) i = Some jm /\
    nth_error (final_status r) i = Some true /\
    forall m' jk dm dm',
      nth_error row m' = Some jk -> flagged_within ag p jk ->
      nth_error drow m = Some dm -> nth_error drow m' = Some dm' ->
      (m <= m')%nat /\ fle dm dm' = true.
Proof.
  intros H Hwf Hp Hrow Hd Hasc Hm (ph & Hph & Hw) Hfirst.
  destruct (ComputeBasisRepresentation_point _ _ _ _ _ _ _ H Hwf Hp Hrow)
    as (cands & Hc & Hfw & Hfj & Hfs).
  destruct (candidates_nth_row _ _ _ _ _ _ Hc Hm) as (ph' & Hph' & Hcm).
  rewrite Hph in Hph'. inversion Hph'; subst ph'. clear Hph'.
  assert (Hpick : pick_nearest_within cands = (ph, jm, true)).
  { apply pick_nearest_within_first with (m := m); auto.
    intros m' [ph' jk] Hlt Hc'.
    destruct (candidates_nth _ _ _ _ _ _ Hc Hc') as (Hr' & Hb'). simpl in *.
    destruct (within_row ph') eqn:E; auto.
    exfalso. apply (Hfirst m' jk Hlt Hr'). exists ph'. auto. }
  rewrite Hpick in Hfw, Hfj, Hfs. simpl in Hfw, Hfj, Hfs.
  exists ph. repeat split; auto.
  - destruct (Nat.le_gt_cases m m') as [Hle|Hgt]; auto.
    exfalso. apply (Hfirst m' jk Hgt); auto.
  - apply (Hasc m m'); auto.
    destruct (Nat.le_gt_cases m m') as [Hle|Hgt]; auto.
    exfalso. apply (Hfirst m' jk Hgt); auto.
Qed.

(** C4.  After a resolution: a point none of whose candidates is flagged
    within has the element number -99999, three not-a-number weights and a
    false containment flag; the outside list holds exactly the indices of
    those points, and holds them in ascending order. *)
Theorem unresolved_points_sentinel_and_outside
  (xylist : list point) (ag : agdict) (q : query_results) (r : basis_results) :
  ComputeBasisRepresentation xylist ag q = Ok r ->
  well_shaped q ->
  (forall i p row,
      nth_error xylist i = Some p -> nth_error (elements q) i = Some row ->
      unresolved ag p row ->
      nth_error (final_jvals r) i = Some (-99999) /\
      nth_error (final_weights r) i = Some (NaN, NaN, NaN) /\
      nth_error (final_status r) i = Some false) /\
  (forall z, In z (outside_elements r) <->
             exists i p row, z = Z.of_nat i /\ nth_error xylist i = Some p /\
                             nth_error (elements q) i = Some row /\
                             unresolved ag p row) /\
  StronglySorted Z.lt (outside_elements r).
Proof.
  intros H Hwf. split; [|split].
  - intros i p row Hp Hrow Hu.
    destruct (ComputeBasisRepresentation_point _ _ _ _ _ _ _ H Hwf Hp Hrow)
      as (cands & Hc & Hfw & Hfj & Hfs).
    pose proof (proj1 (unresolved_candidates _ _ _ _ Hc) Hu) as Hall.
    destruct (pick_nearest_within_cases cands)
      as [(ph' & jk & _ & Hin & Hwithin)|[Hpick _]].
    + apply Hall in Hin. simpl in Hin. congruence.
    + rewrite Hpick in Hfw, Hfj, Hfs. auto.
  - intros z. apply outside_elements_spec; auto.
  - pose proof (ComputeBasisRepresentation_inv _ _ _ _ H)
      as (_ & _ & _ & _ & _ & _ & _ & Hout).
    rewrite Hout. apply argwhere_all_nan_sorted.
Qed.

(* ================================================================== *)
(** * The reduction *)
(* ================================================================== *)

Lemma dot_weighted_sum (w1 w2 w3 s1 s2 s3 : float64) :
  dot [s1; s2; s3] [w1; w2; w3] = weighted_sum w1 w2 w3 s1 s2 s3.
Proof.
  unfold weighted_sum. cbn [dot].
  rewrite fadd_0_r, fadd_assoc.
  rewrite (fmul_comm s1), (fmul_comm s2), (fmul_comm s3). reflexivity.
Qed.

Lemma matmul_nth (m : list (list float64)) (w : list float64)
      (col : list float64) :
  matmul m w = Ok col ->
  length col = length m /\
  forall tt row, nth_error m tt = Some row ->
                 length row = length w /\
                 nth_error col tt = Some (dot row w).
Proof.
  unfold matmul. intros H. split; [eapply mapM_length; eauto|].
  intros tt row Hrow.
  destruct (mapM_nth_error _ _ _ _ _ H Hrow) as (v & Hv & Hcol).
  destruct (Nat.eqb (length row) (length w)) eqn:E; try discriminate.
  apply Nat.eqb_eq in E. inversion Hv; subst. auto.
Qed.

Lemma WaterLevelReductions_nth
      (t : list Z) (data_list : list (list (list float64)))
      (fw : list phi) (df : dataframe) (i : nat)
      (series : list (list float64)) (w : phi) :
  WaterLevelReductions t data_list fw = Ok df ->
  nth_error data_list i = Some series -> nth_error fw i = Some w ->
  df_index df = t /\
  exists col, nth_error (df_columns df) i = Some (point_label i, col) /\
              matmul series (weights_vector w) = Ok col /\
              length col = length t.
Proof.
  unfold WaterLevelReductions. intros H Hs Hw.
  destruct (mapM _ _) as [final_list|] eqn:E; simpl in H; try discriminate.
  destruct final_list as [|c0 rest] eqn:El; try discriminate.
  inversion H; subst df; simpl. split; auto. rewrite <- El in *.
  assert (Hc : nth_error (combine (seq 0 (length data_list))
                                  (combine data_list fw)) i
               = Some (i, (series, w))).
  { rewrite !nth_error_combine, Hs, Hw.
    rewrite nth_error_seq_lt; auto.
    apply nth_error_Some. congruence. }
  destruct (mapM_nth_error _ _ _ _ _ E Hc) as (c & Hf & Hcol).
  unfold reduce_one in Hf.
  destruct (matmul series (weights_vector w)) as [col|] eqn:Em;
    simpl in Hf; try discriminate.
  destruct (Nat.eqb (length col) (length t)) eqn:El'; try discriminate.
  apply Nat.eqb_eq in El'. inversion Hf; subst c.
  exists col. auto.
Qed.

(** C6.  In the table [WaterLevelReductions] returns, the column of point
    [i] carries the label of the point and one value per row of the
    point's nodal series; each row holds the three nodal values
    [s1, s2, s3] of a timestep, and the value the matrix product gives for
    it is the weighted sum [w1*s1 + w2*s2 + w3*s3]. *)
Theorem WaterLevelReductions_weighted_sum
  (t : list Z) (data_list : list (list (list float64)))
  (final_weights : list phi) (df : dataframe) (i : nat)
  (series : list (list float64)) (w1 w2 w3 : float64) :
  WaterLevelReductions t data_list final_weights = Ok df ->
  nth_error data_list i = Some series ->
  nth_error final_weights i = Some (w1, w2, w3) ->
  exists col,
    nth_error (df_columns df) i = Some (point_label i, col) /\
    length col = length series /\ length col = length (df_index df) /\
    forall tt row,
      nth_error series tt = Some row ->
      exists s1 s2 s3,
        row = [s1; s2; s3] /\
        nth_error col tt = Some (weighted_sum w1 w2 w3 s1 s2 s3).
Proof.
  intros H Hs Hw.
  destruct (WaterLevelReductions_nth _ _ _ _ _ _ _ H Hs Hw)
    as (Hidx & col & Hcol & Hm & Hlen).
  exists col. destruct (matmul_nth _ _ _ Hm) as (Hl & Hrows).
  repeat split; auto; try congruence.
  intros tt row Hrow. destruct (Hrows _ _ Hrow) as (Hl3 & Hv).
  destruct row as [|s1 [|s2 [|s3 [|s4 row]]]]; simpl in Hl3; try discriminate.
  exists s1, s2, s3. split; auto.
  rewrite Hv. f_equal. apply dot_weighted_sum.
Qed.

(** With not-a-number weights every reduced value is not-a-number. *)
Lemma matmul_nan_weights (m : list (list float64)) (col : list float64) :
  matmul m (weights_vector nan3) = Ok col ->
  length col = length m /\ Forall (fun v => v = NaN) col.
Proof.
  intros H. destruct (matmul_nth _ _ _ H) as (Hl & Hrows).
  split; auto. apply Forall_forall. intros v Hv.
  apply In_nth_error in Hv as (tt & Htt).
  assert (Hlt : (tt < length m)%nat).
  { rewrite <- Hl. apply nth_error_Some. congruence. }
  destruct (nth_error_lt_Some _ _ Hlt) as (row & Hrow).
  destruct (Hrows _ _ Hrow) as (Hl3 & Hd).
  rewrite Htt in Hd. inversion Hd; subst v.
  destruct row as [|s1 [|s2 [|s3 [|s4 row]]]]; simpl in Hl3; try discriminate.
  cbn [dot weights_vector nan3]. rewrite fmul_nan_r. reflexivity.
Qed.

(* ================================================================== *)
(** * Year-range validation *)
(* ================================================================== *)

Lemma in_years_iff (y : Z) :
  in_years y = Some y <-> 1979 <= y <= 2022.
Proof.
  unfold in_years.
  destruct (existsb (Z.eqb y) YEARS) eqn:E.
  - split; auto. intros _.
    apply existsb_exists in E as (x & Hin & Hx). apply Z.eqb_eq in Hx. subst x.
    unfold YEARS, py_range in Hin. apply in_map_iff in Hin as (k & <- & Hk).
    apply in_seq in Hk. unfold Ymin, Ymax in *. simpl in Hk. lia.
  - split; [discriminate|]. intros Hr. exfalso.
    assert (Hex : existsb (Z.eqb y) YEARS = true); [|congruence].
    apply existsb_exists. exists y. split; [|apply Z.eqb_refl].
    unfold YEARS, py_range. apply in_map_iff.
    exists (Z.to_nat (y - 1979)). unfold Ymin, Ymax. split; [lia|].
    apply in_seq. simpl. lia.
Qed.

Lemma in_years_None (y : Z) :
  in_years y = None <-> ~ (1979 <= y <= 2022).
Proof.
  rewrite <- in_years_iff. unfold in_years.
  destruct (existsb _ _); split; congruence.
Qed.

(** The validation succeeds exactly when both years are in 1979..2022, and
    then returns them in ascending order. *)
Lemma return_sorted_years_ok_iff (a b lo hi : Z) :
  snd (return_sorted_years (a, b)) = Ok (lo, hi) <->
  (1979 <= a <= 2022) /\ (1979 <= b <= 2022) /\
  lo = Z.min a b /\ hi = Z.max a b.
Proof.
  unfold return_sorted_years, all_truthy. cbn [fst snd].
  destruct (in_years a) as [a'|] eqn:Ea; destruct (in_years b) as [b'|] eqn:Eb.
  - assert (a' = a) by (unfold in_years in Ea; destruct (existsb _ _);
                        congruence).
    assert (b' = b) by (unfold in_years in Eb; destruct (existsb _ _);
                        congruence).
    subst a' b'. apply in_years_iff in Ea. apply in_years_iff in Eb.
    replace (a =? 0) with false by (symmetry; apply Z.eqb_neq; lia).
    replace (b =? 0) with false by (symmetry; apply Z.eqb_neq; lia).
    cbn [negb andb sorted_pair].
    destruct (b <? a) eqn:E; cbn [snd];
      [apply Z.ltb_lt in E | apply Z.ltb_ge in E];
      (split; [intros H; inversion H; subst; lia
              | intros (_ & _ & -> & ->); f_equal; f_equal; lia]).
  - apply in_years_None in Eb.
    destruct (negb (a =? 0) && negb (b =? 0)); cbn [sorted_pair snd];
      (split; [discriminate | tauto]).
  - apply in_years_None in Ea.
    destruct (negb (a =? 0) && negb (b =? 0)); cbn [sorted_pair snd];
      (split; [discriminate | tauto]).
  - apply in_years_None in Ea.
    destruct (negb (a =? 0) && negb (b =? 0)); cbn [sorted_pair snd];
      (split; [discriminate | tauto]).
Qed.

(** Outside the range, the diagnostic branch is reached only through a
    year that is zero; any other pair ends in the [TypeError] of the
    sort, with nothing printed. *)
Lemma return_sorted_years_out_of_range (a b : Z) :
  ~ (1979 <= a <= 2022) \/ ~ (1979 <= b <= 2022) ->
  return_sorted_years (a, b)
  = if (a =? 0) || (b =? 0)
    then ([Msg_out_of_range (a, b); Msg_available YEARS], Raise SystemExit)
    else ([], Raise TypeError).
Proof.
  intros H. unfold return_sorted_years, all_truthy. cbn [fst snd].
  destruct (a =? 0) eqn:Ea0; destruct (b =? 0) eqn:Eb0;
    cbn [negb andb orb]; auto.
  destruct H as [H|H]; apply in_years_None in H; rewrite H.
  - reflexivity.
  - destruct (in_years a); reflexivity.
Qed.

(** C8, at the pair (1978, 2000): the start year is out of range, and the
    validation ends in the [TypeError] of sorting [None] against a year,
    having printed no diagnostic. *)
Theorem return_sorted_years_1978_2000 :
  return_sorted_years (1978, 2000) = ([], Raise TypeError).
Proof. reflexivity. Qed.

(* ================================================================== *)
(** * The spatial index *)
(* ================================================================== *)

Lemma insert_neighbor_In (x y : neighbor) (l : list neighbor) :
  In y (insert_neighbor x l) <-> y = x \/ In y l.
Proof.
  induction l as [|z l IH]; simpl.
  - intuition congruence.
  - destruct (fle (fst x) (fst z)); simpl; rewrite ?IH; intuition congruence.
Qed.

Lemma insert_neighbor_length (x : neighbor) (l : list neighbor) :
  length (insert_neighbor x l) = S (length l).
Proof.
  induction l as [|z l IH]; simpl; auto.
  destruct (fle (fst x) (fst z)); simpl; auto.
Qed.

Lemma sort_neighbors_In (y : neighbor) (l : list neighbor) :
  In y (sort_neighbors l) <-> In y l.
Proof.
  induction l as [|x l IH]; simpl; [tauto|].
  rewrite insert_neighbor_In, IH. intuition congruence.
Qed.

Lemma sort_neighbors_length (l : list neighbor) :
  length (sort_neighbors l) = length l.
Proof.
  induction l as [|x l IH]; simpl; auto.
  rewrite insert_neighbor_length, IH. reflexivity.
Qed.

Lemma enumerate_In {A} (l : list A) (z : Z) (a : A) :
  In (z, a) (enumerate l) -> 0 <= z < Z.of_nat (length l).
Proof.
  unfold enumerate. intros H. apply in_combine_l in H.
  apply in_map_iff in H as (k & <- & Hk). apply in_seq in Hk. lia.
Qed.

Lemma all_neighbors_length (t : kdtree) (p : point) :
  length (all_neighbors t p) = length t.
Proof.
  unfold all_neighbors, enumerate.
  rewrite sort_neighbors_length, length_map, length_combine, length_map,
    length_seq. lia.
Qed.

Lemma all_neighbors_In (t : kdtree) (p : point) (d : float64) (j : Z) :
  In (d, j) (all_neighbors t p) -> 0 <= j < Z.of_nat (length t).
Proof.
  unfold all_neighbors. rewrite sort_neighbors_In.
  intros H. apply in_map_iff in H as ([i c] & Hic & Hin).
  inversion Hic; subst. eapply enumerate_In; eauto.
Qed.

Lemma In_firstn {A} (n : nat) (l : list A) (x : A) :
  In x (firstn n l) -> In x l.
Proof.
  intros H. rewrite <- (firstn_skipn n l). apply in_or_app. auto.
Qed.

(** A query returns exactly [k] neighbours. *)
Lemma kd_query1_length (t : kdtree) (p : point) (k : nat) :
  length (kd_query1 t p k) = k.
Proof.
  unfold kd_query1. rewrite length_firstn, length_app, repeat_length,
    all_neighbors_length. lia.
Qed.

(** The indices of a query lie in [0 .. n], and below [n] when no more
    neighbours are asked for than the tree has points. *)
Lemma kd_query1_In (t : kdtree) (p : point) (k : nat) (d : float64) (j : Z) :
  In (d, j) (kd_query1 t p k) ->
  0 <= j <= Z.of_nat (length t) /\
  ((k <= length t)%nat -> j < Z.of_nat (length t)).
Proof.
  unfold kd_query1. intros H. apply In_firstn in H.
  apply in_app_or in H as [H|H].
  - apply all_neighbors_In in H. lia.
  - split.
    + apply repeat_spec in H. inversion H. lia.
    + intros Hk. replace (k - length t)%nat with 0%nat in H by lia.
      destruct H.
Qed.


Lemma fle_refl_distance (d : float64) : is_distance d = true -> fle d d = true.
Proof.
  destruct d as [a|[|]|]; simpl; try discriminate; auto.
  intros _. apply fle_Fin. apply Qcle_refl.
Qed.

Lemma fle_total_distance (x y : float64) :
  is_distance x = true -> is_distance y = true ->
  fle x y = false -> fle y x = true.
Proof.
  destruct x as [a|[|]|], y as [b|[|]|]; simpl; try discriminate; auto.
  intros _ _ H. unfold Qcleb in *.
  destruct (Qle_bool b a) eqn:E; auto.
  assert (Hab : ~ (a <= b)%Q) by (rewrite <- Qle_bool_iff; congruence).
  assert (Hba : ~ (b <= a)%Q) by (rewrite <- Qle_bool_iff; congruence).
  exfalso. apply Hab. apply Qlt_le_weak. apply Qnot_le_lt. exact Hba.
Qed.

Lemma fle_trans_distance (x y z : float64) :
  is_distance x = true -> is_distance y = true -> is_distance z = true ->
  fle x y = true -> fle y z = true -> fle x z = true.
Proof.
  destruct x as [a|[|]|], y as [b|[|]|], z as [c|[|]|]; simpl;
    try discriminate; auto.
  intros _ _ _. unfold Qcleb. rewrite !Qle_bool_iff. apply Qle_trans.
Qed.

Lemma insert_neighbor_sorted (x : neighbor) (l : list neighbor) :
  is_distance (fst x) = true ->
  Forall (fun y => is_distance (fst y) = true) l ->
  StronglySorted nearer l -> StronglySorted nearer (insert_neighbor x l).
Proof.
  intros Hx Hl Hs. induction Hs as [|y l Hs IH Hy]; simpl.
  - constructor; constructor.
  - inversion Hl as [|? ? Hdy Hdl]; subst.
    destruct (fle (fst x) (fst y)) eqn:E.
    + constructor; [constructor; auto|].
      constructor; [exact E|].
      rewrite Forall_forall in *. intros z Hz.
      apply (fle_trans_distance _ (fst y)); auto. apply (Hy z Hz).
    + constructor; [apply IH; auto|].
      apply Forall_forall. intros z Hz.
      apply insert_neighbor_In in Hz as [->|Hz].
      * apply fle_total_distance; auto.
      * rewrite Forall_forall in Hy. apply Hy; auto.
Qed.

Lemma sort_neighbors_sorted (l : list neighbor) :
  Forall (fun y => is_distance (fst y) = true) l ->
  StronglySorted nearer (sort_neighbors l).
Proof.
  induction l as [|x l IH]; simpl; intros H.
  - constructor.
  - inversion H as [|? ? Hx Hl]; subst. apply insert_neighbor_sorted.
    + exact Hx.
    + apply Forall_forall. intros y Hy. rewrite sort_neighbors_In in Hy.
      rewrite Forall_forall in Hl. exact (Hl y Hy).
    + apply IH. exact Hl.
Qed.

Lemma dist2_distance (p c : point) :
  finite_point p -> finite_point c -> is_distance (dist2 p c) = true.
Proof.
  destruct p as [px py], c as [cx cy]. intros [Hpx Hpy] [Hcx Hcy].
  simpl in *.
  apply isfinite_Fin in Hpx as (a & ->). apply isfinite_Fin in Hpy as (b & ->).
  apply isfinite_Fin in Hcx as (c & ->). apply isfinite_Fin in Hcy as (d & ->).
  reflexivity.
Qed.

Lemma all_neighbors_distance (t : kdtree) (p : point) :
  finite_point p -> Forall finite_point t ->
  Forall (fun y => is_distance (fst y) = true) (all_neighbors t p).
Proof.
  intros Hp Ht. apply Forall_forall. intros [d j] Hin.
  unfold all_neighbors in Hin. rewrite sort_neighbors_In in Hin.
  apply in_map_iff in Hin as ([i c] & Heq & Hic). inversion Heq; subst.
  simpl. apply dist2_distance; auto.
  unfold enumerate in Hic. apply in_combine_r in Hic.
  rewrite Forall_forall in Ht. auto.
Qed.

Lemma StronglySorted_firstn {A} (R : A -> A -> Prop) (k : nat) (l : list A) :
  StronglySorted R l -> StronglySorted R (firstn k l).
Proof.
  intros H. revert k. induction H as [|x l Hs IH Hx]; intros [|k]; simpl;
    try constructor; auto.
  apply Forall_forall. intros y Hy. apply In_firstn in Hy.
  rewrite Forall_forall in Hx. auto.
Qed.

Lemma StronglySorted_pad (l : list neighbor) (x : neighbor) (m : nat) :
  fst x = Inf false ->
  Forall (fun y => is_distance (fst y) = true) l ->
  StronglySorted nearer l -> StronglySorted nearer (l ++ repeat x m).
Proof.
  intros Hx Hl Hs. induction Hs as [|y l Hs IH Hy]; simpl.
  - induction m; simpl; constructor; auto.
    apply Forall_forall. intros z Hz. apply repeat_spec in Hz. subst z.
    unfold nearer. rewrite Hx. reflexivity.
  - inversion Hl as [|? ? Hdy Hdl]; subst.
    constructor; [apply IH; auto|].
    apply Forall_forall. intros z Hz. apply in_app_or in Hz as [Hz|Hz].
    + rewrite Forall_forall in Hy. auto.
    + apply repeat_spec in Hz. subst z. unfold nearer. rewrite Hx.
      destruct (fst y) as [a|[|]|]; simpl in *; try discriminate; auto.
Qed.

Lemma StronglySorted_nth_error {A} (R : A -> A -> Prop) (l : list A)
      (a b : nat) (x y : A) :
  StronglySorted R l -> (a < b)%nat ->
  nth_error l a = Some x -> nth_error l b = Some y -> R x y.
Proof.
  intros H. revert a b. induction H as [|z l Hs IH Hz]; intros a b Hab Ha Hb.
  - destruct a; discriminate.
  - destruct b as [|b]; [lia|]. simpl in Hb. destruct a as [|a]; simpl in Ha.
    + inversion Ha; subst. rewrite Forall_forall in Hz. apply Hz.
      eapply nth_error_In; eauto.
    + apply (IH a b); auto. lia.
Qed.

Lemma nth_error_map_Some {A B} (f : A -> B) (l : list A) (n : nat) (d : B) :
  nth_error (map f l) n = Some d ->
  exists x, nth_error l n = Some x /\ d = f x.
Proof.
  revert n. induction l as [|x l IH]; intros [|n]; simpl; try discriminate.
  - intros H; inversion H. eauto.
  - apply IH.
Qed.

(** The distances a query returns are in ascending order. *)
Lemma kd_query1_ascending (t : kdtree) (p : point) (k : nat) :
  finite_point p -> Forall finite_point t ->
  ascending (map fst (kd_query1 t p k)).
Proof.
  intros Hp Ht.
  pose proof (all_neighbors_distance t p Hp Ht) as Hd.
  assert (Hs : StronglySorted nearer (kd_query1 t p k)).
  { unfold kd_query1. apply StronglySorted_firstn.
    apply StronglySorted_pad; auto.
    unfold all_neighbors. apply sort_neighbors_sorted.
    apply Forall_forall. intros [d j] Hin.
    apply in_map_iff in Hin as ([i c] & Heq & Hic). inversion Heq; subst.
    simpl. apply dist2_distance; auto.
    unfold enumerate in Hic. apply in_combine_r in Hic.
    rewrite Forall_forall in Ht. auto. }
  assert (Hall : Forall (fun y => is_distance (fst y) = true) (kd_query1 t p k)).
  { apply Forall_forall. intros y Hy. unfold kd_query1 in Hy.
    apply In_firstn in Hy. apply in_app_or in Hy as [Hy|Hy].
    - rewrite Forall_forall in Hd. auto.
    - apply repeat_spec in Hy. subst y. reflexivity. }
  intros a b da db Hab Ha Hb.
  apply nth_error_map_Some in Ha as (x & Hx & ->).
  apply nth_error_map_Some in Hb as (y & Hy & ->).
  destruct (Nat.eq_dec a b) as [->|Hne].
  - rewrite Hx in Hy. inversion Hy; subst y. apply fle_refl_distance.
    rewrite Forall_forall in Hall. apply Hall. eapply nth_error_In; eauto.
  - apply (StronglySorted_nth_error nearer _ a b x y Hs); auto. lia.
Qed.

(** For finite query points and centroids the distance rows of a query are
    ascending. *)
Lemma ComputeQuery_distance_ascending (xylist : list point) (ag : agdict)
      (t : kdtree) (kmax : nat) (q : query_results) :
  tree ag = Some t -> Forall finite_point t -> Forall finite_point xylist ->
  ComputeQuery xylist ag kmax = Ok q ->
  Forall ascending (distance q).
Proof.
  intros Ht Hft Hfp H. unfold ComputeQuery in H. rewrite Ht in H.
  simpl in H. inversion H; subst q; simpl.
  rewrite map_map. apply Forall_forall. intros drow Hin.
  apply in_map_iff in Hin as (p & <- & Hp).
  apply kd_query1_ascending; auto.
  rewrite Forall_forall in Hfp. auto.
Qed.

Lemma ComputeQuery_inv (xylist : list point) (ag : agdict) (kmax : nat)
      (q : query_results) :
  ComputeQuery xylist ag kmax = Ok q ->
  exists t, tree ag = Some t /\
            elements q = map (fun p => map snd (kd_query1 t p kmax)) xylist /\
            distance q = map (fun p => map fst (kd_query1 t p kmax)) xylist /\
            number_neighbors q = kmax /\ geopoints q = xylist.
Proof.
  unfold ComputeQuery. destruct (tree ag) as [t|]; simpl; try discriminate.
  intros H; inversion H; subst q; simpl. exists t.
  rewrite !map_map. auto.
Qed.

Lemma ComputeQuery_well_shaped (xylist : list point) (ag : agdict)
      (kmax : nat) (q : query_results) :
  ComputeQuery xylist ag kmax = Ok q -> well_shaped q.
Proof.
  intros H. apply ComputeQuery_inv in H as (t & _ & He & _ & Hk & _).
  unfold well_shaped. rewrite He, Hk. apply Forall_forall.
  intros row Hrow. apply in_map_iff in Hrow as (p & <- & _).
  rewrite length_map. apply kd_query1_length.
Qed.

Lemma ComputeQuery_nonneg (xylist : list point) (ag : agdict)
      (kmax : nat) (q : query_results) (row : list Z) (jk : Z) :
  ComputeQuery xylist ag kmax = Ok q ->
  In row (elements q) -> In jk row -> 0 <= jk.
Proof.
  intros H Hrow Hjk. apply ComputeQuery_inv in H as (t & _ & He & _).
  rewrite He in Hrow. apply in_map_iff in Hrow as (p & <- & _).
  apply in_map_iff in Hjk as ([d j] & <- & Hin).
  apply kd_query1_In in Hin. simpl. lia.
Qed.

(* ================================================================== *)
(** * The metadata table *)
(* ================================================================== *)

Lemma GenerateMetadata_nth (r : basis_results) (i : nat) (p : point) (j : Z) :
  nth_error (geopoints (query r)) i = Some p ->
  nth_error (final_jvals r) i = Some j ->
  nth_error (GenerateMetadata r) i
  = Some {| Point := point_label i; LON := fst p; LAT := snd p;
            Element := replace (-99998) (-99999) (j + 1) |}.
Proof.
  intros Hp Hj. unfold GenerateMetadata. cbv zeta.
  rewrite nth_error_map, !nth_error_combine.
  unfold point in *. rewrite Hp, nth_error_map, Hj.
  rewrite length_map, nth_error_seq_lt
    by (apply nth_error_Some; congruence).
  reflexivity.
Qed.

(** C7.  For a batch that went through the query and the resolution, the
    metadata table has one row per query point, in input order; the row of
    point [i] holds its label, the longitude and latitude it was given, and
    an element id that is -99999 when the point is unresolved and the
    selected element number plus one (the 1-based number) when a candidate
    was selected. *)
Theorem GenerateMetadata_rows
  (xylist : list point) (ag : agdict) (kmax : nat) (q : query_results)
  (r : basis_results) :
  ComputeQuery xylist ag kmax = Ok q ->
  ComputeBasisRepresentation xylist ag q = Ok r ->
  length (GenerateMetadata r) = length xylist /\
  forall i p row,
    nth_error xylist i = Some p -> nth_error (elements q) i = Some row ->
    exists jsel e,
      nth_error (final_jvals r) i = Some jsel /\
      nth_error (GenerateMetadata r) i
      = Some {| Point := point_label i; LON := fst p; LAT := snd p;
                Element := e |} /\
      ((unresolved ag p row /\ e = -99999) \/
       (In jsel row /\ flagged_within ag p jsel /\ e = jsel + 1)).
Proof.
  intros Hq H.
  pose proof (ComputeQuery_well_shaped _ _ _ _ Hq) as Hwf.
  destruct (ComputeBasisRepresentation_lengths _ _ _ _ H)
    as (Hle & _ & Hlj & _).
  pose proof (ComputeBasisRepresentation_inv _ _ _ _ H)
    as (_ & _ & _ & _ & _ & _ & Hqr & _).
  pose proof (ComputeQuery_inv _ _ _ _ Hq) as (_ & _ & _ & _ & _ & Hgp).
  split.
  - unfold GenerateMetadata. cbv zeta.
    rewrite length_map, !length_combine, length_seq, !length_map, Hqr, Hgp.
    lia.
  - intros i p row Hp Hrow.
    destruct (ComputeBasisRepresentation_point _ _ _ _ _ _ _ H Hwf Hp Hrow)
      as (cands & Hc & _ & Hfj & _).
    assert (Hgp' : nth_error (geopoints (query r)) i = Some p)
      by (rewrite Hqr, Hgp; exact Hp).
    eexists _, _. split; [exact Hfj|].
    split; [exact (GenerateMetadata_nth _ _ _ _ Hgp' Hfj)|].
    destruct (pick_nearest_within_cases cands)
      as [(ph & jk & Hpick & Hin & Hw)|[Hpick Hall]].
    + right. rewrite Hpick. cbn [fst snd].
      apply In_nth_error in Hin as (k & Hk).
      destruct (candidates_nth _ _ _ _ _ _ Hc Hk) as (Hrk & Hph).
      cbn [fst snd] in Hrk, Hph.
      assert (Hjin : In jk row) by (eapply nth_error_In; eauto).
      split; [exact Hjin|]. split; [exists ph; auto|].
      pose proof (ComputeQuery_nonneg _ _ _ _ _ _ Hq
                    (nth_error_In _ _ Hrow) Hjin) as Hnn.
      unfold replace. destruct (jk + 1 =? -99998) eqn:E; auto.
      apply Z.eqb_eq in E. lia.
    + left. rewrite Hpick. cbn [fst snd]. split; [|reflexivity].
      apply (unresolved_candidates _ _ _ _ Hc). exact Hall.
Qed.

(* ================================================================== *)
(** * Coverage and the neighbour count *)
(* ================================================================== *)

Lemma attach_element_areas_attached (ag0 ag : agdict) :
  attach_element_areas ag0 = Ok ag -> areas_attached ag.
Proof.
  intros H. apply attach_element_areas_inv in H as (_ & _ & _ & _ & H).
  exact H.
Qed.

Lemma ComputeTree_inv (ag1 ag : agdict) (got : option kdtree) :
  ComputeTree None ag1 = Ok (ag, got) ->
  lon ag = lon ag1 /\ lat ag = lat ag1 /\ ele ag = ele ag1 /\
  areas ag = areas ag1 /\
  exists t, tree ag = Some t /\ got = Some t /\
            length t = length (ele ag1).
Proof.
  unfold ComputeTree. intros H.
  destruct (mapM _ (ele ag1)) as [t|] eqn:E; simpl in H; try discriminate.
  inversion H; subst; simpl. repeat split; auto.
  exists t. repeat split; auto. eapply mapM_length; eauto.
Qed.

Lemma ComputeTree_attached (ag1 ag : agdict) (got : option kdtree) :
  ComputeTree None ag1 = Ok (ag, got) -> areas_attached ag1 ->
  areas_attached ag.
Proof.
  intros H (ar & Har & Hm).
  apply ComputeTree_inv in H as (Hlon & Hlat & Hele & Hareas & _).
  exists ar. rewrite Hlon, Hlat, Hele, Hareas. auto.
Qed.

Lemma basis2d_at_ok (ag : agdict) (p : point) (ji : Z) :
  areas_attached ag -> 0 <= ji < Z.of_nat (length (ele ag)) ->
  exists ph, basis2d_at ag p ji = Ok ph.
Proof.
  intros (ar & Har & Hm) Hr.
  destruct (py_index_in_range _ _ Hr) as (e & He & _).
  destruct (mapM_py_index_ok _ _ _ _ _ Hm He) as (A & HA & Hidx).
  apply element_area_inv in HA as (x1 & x2 & x3 & y1 & y2 & y3 & Hn & ->).
  unfold basis2d_at. rewrite He. simpl. rewrite Hn. simpl.
  rewrite Har. simpl. rewrite Hidx. simpl. eauto.
Qed.





(* ================================================================== *)
(** * The reduction, from the dataset to the table *)
(* ================================================================== *)

Lemma mapM_raise {A B} (f : A -> result B) (l : list A) (a : A) :
  In a l -> (exists e, f a = Raise e) -> exists e, mapM f l = Raise e.
Proof.
  induction l as [|a' l IH]; simpl; intros Hin (e & He); [destruct Hin|].
  destruct (f a') as [b|e'] eqn:Ef; simpl; [|eauto].
  destruct Hin as [->|Hin]; [congruence|].
  destruct (IH Hin (ex_intro _ e He)) as (e'' & ->). simpl. eauto.
Qed.

(** When the reduction returns, the column of a point with not-a-number
    weights is not-a-number at every timestep. *)
Lemma WaterLevelReductions_unresolved_column
      (t : list Z) (data_list : list (list (list float64)))
      (fw : list phi) (df : dataframe) (i : nat)
      (series : list (list float64)) :
  WaterLevelReductions t data_list fw = Ok df ->
  nth_error data_list i = Some series -> nth_error fw i = Some nan3 ->
  exists col, nth_error (df_columns df) i = Some (point_label i, col) /\
              length col = length t /\ Forall (fun v => v = NaN) col.
Proof.
  intros H Hs Hw.
  destruct (WaterLevelReductions_nth _ _ _ _ _ _ _ H Hs Hw)
    as (_ & col & Hcol & Hm & Hlen).
  exists col. repeat split; auto. apply (matmul_nan_weights _ _ Hm).
Qed.

(** The element array is read at the element number of every point, the
    unassigned -99999 included: on a mesh of fewer than 99999 elements a
    batch with an unresolved point does not return. *)
Lemma ConstructReduced_unresolved_raises
      (ds : dataset) (ag : agdict) (r : basis_results)
      (variable_name : option string) :
  In NOT_FOUND (final_jvals r) -> Z.of_nat (length (ele ag)) < 99999 ->
  exists e,
    ConstructReducedWaterLevelData_from_ds ds ag r variable_name = Raise e.
Proof.
  intros Hin Hlen. unfold ConstructReducedWaterLevelData_from_ds.
  destruct variable_name as [v|]; [|eauto].
  match goal with
  | |- context [mapM ?f (final_jvals r)] =>
      destruct (mapM_raise f (final_jvals r) NOT_FOUND Hin) as (e & ->)
  end.
  - exists IndexError. rewrite py_index_out_of_range; [reflexivity|].
    unfold NOT_FOUND. lia.
  - simpl. eauto.
Qed.

Lemma ConstructReduced_inv (ds : dataset) (ag : agdict) (r : basis_results)
      (v : string) (red : reduced_results) :
  ConstructReducedWaterLevelData_from_ds ds ag r (Some v) = Ok red ->
  exists data_list,
    mapM (fun vstation =>
            ' (n1, n2, n3) <- py_index (ele ag) vstation ;;
            var <- get_adcirc_slice_from_ds ds v [n1; n2; n3] ;;
            Ok (frame_values var)) (final_jvals r) = Ok data_list /\
    WaterLevelReductions (ds_time ds) data_list (final_weights r)
    = Ok (final_reduced_data red) /\
    final_meta_data red = GenerateMetadata r /\ basis red = r.
Proof.
  unfold ConstructReducedWaterLevelData_from_ds, get_adcirc_time_from_ds.
  intros H.
  destruct (mapM _ (final_jvals r)) as [data_list|] eqn:E; simpl in H;
    try discriminate.
  destruct (WaterLevelReductions _ _ _) as [df|] eqn:Ew; simpl in H;
    try discriminate.
  inversion H; subst red; simpl. exists data_list. auto.
Qed.

Lemma get_adcirc_slice_time_leading
      (ds : dataset) (v : string) (var : variable) (rest : list string)
      (rows : list (list float64)) (it : list Z) (a : ndarray) :
  lookup v (ds_variables ds) = Ok var ->
  re_search "max" v = false -> re_search "depth" v = false ->
  dims var = "time"%string :: rest -> data var = Arr2 rows ->
  get_adcirc_slice_from_ds ds v it = Ok a ->
  exists sel, a = Arr2 sel /\
              mapM (fun row => mapM (py_index row) it) rows = Ok sel.
Proof.
  intros Hv Hmax Hdepth Hdims Hdata. unfold get_adcirc_slice_from_ds.
  rewrite Hv. cbn [bind]. rewrite Hmax, Hdepth, Hdims. cbn [orb bind].
  replace (String.eqb "time" "node") with false by reflexivity.
  replace (String.eqb "time" "time") with true by reflexivity.
  rewrite Hdata.
  destruct (mapM _ rows) as [sel|]; simpl; try discriminate.
  intros H; inversion H. eauto.
Qed.

(** X18.  From the dataset to the table: for a variable whose leading axis is
    time, the value of point [i] at timestep [tt] is the weighted sum of
    the values the variable has, at that timestep, at the three nodes of
    the element selected for the point. *)
Lemma reduced_series_time_leading
      (ds : dataset) (ag : agdict) (r : basis_results) (v : string)
      (red : reduced_results) (var : variable) (rest : list string)
      (rows : list (list float64)) (i : nat) (j n1 n2 n3 : Z)
      (w1 w2 w3 : float64) :
  ConstructReducedWaterLevelData_from_ds ds ag r (Some v) = Ok red ->
  lookup v (ds_variables ds) = Ok var ->
  re_search "max" v = false -> re_search "depth" v = false ->
  dims var = "time"%string :: rest -> data var = Arr2 rows ->
  nth_error (final_jvals r) i = Some j ->
  nth_error (final_weights r) i = Some (w1, w2, w3) ->
  py_index (ele ag) j = Ok (n1, n2, n3) ->
  exists col,
    nth_error (df_columns (final_reduced_data red)) i
    = Some (point_label i, col) /\
    length col = length rows /\
    forall tt row,
      nth_error rows tt = Some row ->
      exists s1 s2 s3,
        py_index row n1 = Ok s1 /\ py_index row n2 = Ok s2 /\
        py_index row n3 = Ok s3 /\
        nth_error col tt = Some (weighted_sum w1 w2 w3 s1 s2 s3).
Proof.
  intros H Hv Hmax Hdepth Hdims Hdata Hj Hw He.
  apply ConstructReduced_inv in H as (data_list & Hdl & Hred & _).
  destruct (mapM_nth_error _ _ _ _ _ Hdl Hj) as (series & Hf & Hs).
  rewrite He in Hf. cbn [bind] in Hf.
  destruct (get_adcirc_slice_from_ds ds v [n1; n2; n3]) as [a|] eqn:Ea;
    simpl in Hf; try discriminate.
  inversion Hf; subst series. clear Hf.
  destruct (get_adcirc_slice_time_leading _ _ _ _ _ _ _
              Hv Hmax Hdepth Hdims Hdata Ea) as (sel & -> & Hsel).
  simpl in Hs.
  destruct (WaterLevelReductions_nth _ _ _ _ _ _ _ Hred Hs Hw)
    as (_ & col & Hcol & Hm & _).
  destruct (matmul_nth _ _ _ Hm) as (Hl & Hrows).
  exists col. split; [exact Hcol|]. split.
  - rewrite Hl. eapply mapM_length; eauto.
  - intros tt row Hrow.
    destruct (mapM_nth_error _ _ _ _ _ Hsel Hrow) as (row' & Hr' & Hsr).
    destruct (Hrows _ _ Hsr) as (_ & Hc).
    simpl in Hr'.
    destruct (py_index row n1) as [s1|]; simpl in Hr'; try discriminate.
    destruct (py_index row n2) as [s2|]; simpl in Hr'; try discriminate.
    destruct (py_index row n3) as [s3|]; simpl in Hr'; try discriminate.
    inversion Hr'; subst row'.
    exists s1, s2, s3. repeat split; auto.
    rewrite Hc. f_equal. apply dot_weighted_sum.
Qed.

(* ================================================================== *)
(** * Worked instances *)
(* ================================================================== *)

(** The scenario of the specification: on the unit right triangle with
    nodal values 1, 2, 3 the point (1/4, 1/4) resolves to element 0 with
    the weights (1/2, 1/4, 1/4), and its reduced value is 7/4. *)
Example scenario_unit_triangle :
  match Combined_pipeline None unit_ds (Some "zeta"%string) [inside] 1 with
  | Ok ({| df_index := [0]; df_columns := [(label, [v])] |},
        [row], [], _) =>
      String.eqb label "P1" && feqb v (Fin (Q2Qc (7 # 4)))
      && (Element row =? 1)
  | _ => false
  end = true.
Proof. vm_compute. reflexivity. Qed.

(** The weights of the scenario. *)
Example scenario_unit_triangle_weights :
  map (fun p => feqb (w0 p) half && feqb (w1 p) quarter && feqb (w2 p) quarter)
      (final_weights (resolved unit_ds [inside] 1)) = [true].
Proof. vm_compute. reflexivity. Qed.



(** C10 on the mesh of three collinear nodes. *)
Lemma basis2d_finite_iff_area_nonzero_witness :
  exists ar A ph,
    areas (attached flat_ds) = Some ar /\ py_index ar 0 = Ok (Fin A) /\
    basis2d (attached flat_ds) [(Fin (Q2Qc (1 # 2)), Fin (Q2Qc (1 # 3)))] [0]
    = Ok [ph] /\
    (all3 isfinite ph = true <-> A <> 0%Qc) /\
    (A = 0%Qc ->
     all3 (fun v => negb (isfinite v)) ph = true /\
     basis2d_withinElement [ph] = [false]).
Proof.
  apply (basis2d_finite_iff_area_nonzero
           (get_adcirc_grid_from_ds flat_ds) (attached flat_ds)
           (Q2Qc (1 # 2)) (Q2Qc (1 # 3)) 0 (0, 1, 2)).
  - vm_compute. reflexivity.
  - repeat constructor.
  - repeat constructor.
  - reflexivity.
Defined.

(** C1 at the point (0, 1/2) on the edge the two triangles share: both
    candidates are flagged within, and the nearer element 0 is selected. *)
Lemma nearest_within_candidate_wins_witness :
  exists ph,
    basis2d_at (with_tree two_ds) on_edge 0 = Ok ph /\
    nth_error (final_weights (resolved two_ds two_points 2)) 0 = Some ph /\
    nth_error (final_jvals (resolved two_ds two_points 2)) 0 = Some 0 /\
    nth_error (final_status (resolved two_ds two_points 2)) 0 = Some true /\
    forall m' jk dm dm',
      nth_error [0; 1] m' = Some jk ->
      flagged_within (with_tree two_ds) on_edge jk ->
      nth_error on_edge_distances 0 = Some dm ->
      nth_error on_edge_distances m' = Some dm' ->
      (0 <= m')%nat /\ fle dm dm' = true.
Proof.
  apply (nearest_within_candidate_wins
           two_points (with_tree two_ds) (queried two_ds two_points 2)
           (resolved two_ds two_points 2) 0 on_edge [0; 1]
           on_edge_distances 0 0).
  - vm_compute. reflexivity.
  - repeat constructor.
  - reflexivity.
  - reflexivity.
  - vm_compute. reflexivity.
  - unfold on_edge_distances.
    intros [|[|a]] [|[|b]] da db Hab Ha Hb;
      try (exfalso; lia);
      try (destruct a; discriminate Ha);
      try (destruct b; discriminate Hb);
      cbn [nth_error] in Ha, Hb; inversion Ha; inversion Hb;
      vm_compute; reflexivity.
  - reflexivity.
  - eexists. split; vm_compute; reflexivity.
  - intros m' jk Hlt. lia.
Defined.

(** Neither triangle contains the point (5, 5). *)
Lemma unresolved_far_away : unresolved (with_tree two_ds) far_away [0; 1].
Proof.
  intros jk [<-|[<-|[]]] (ph & Hph & Hw); vm_compute in Hph;
    inversion Hph; subst ph; vm_compute in Hw; discriminate Hw.
Qed.

(** C4 at the point (5, 5), the third of the batch. *)
Lemma unresolved_points_sentinel_and_outside_witness :
  nth_error (final_jvals (resolved two_ds two_points 2)) 2 = Some (-99999) /\
  nth_error (final_weights (resolved two_ds two_points 2)) 2
  = Some (NaN, NaN, NaN) /\
  nth_error (final_status (resolved two_ds two_points 2)) 2 = Some false.
Proof.
  refine (proj1 (unresolved_points_sentinel_and_outside
                   two_points (with_tree two_ds) (queried two_ds two_points 2)
                   (resolved two_ds two_points 2) _ _)
                2%nat far_away [0; 1] eq_refl eq_refl unresolved_far_away).
  - vm_compute. reflexivity.
  - repeat constructor.
Defined.

(** C6 for one point with the weights (1/2, 1/4, 1/4) and two timesteps. *)
Lemma WaterLevelReductions_weighted_sum_witness :
  exists col,
    nth_error (df_columns (reduced_frame [0; 3600]
                 [[[of_Z 1; of_Z 2; of_Z 3]; [of_Z 2; of_Z 4; of_Z 6]]]
                 [(half, quarter, quarter)])) 0
    = Some (point_label 0, col) /\
    length col = 2%nat /\
    length col = length (df_index (reduced_frame [0; 3600]
                 [[[of_Z 1; of_Z 2; of_Z 3]; [of_Z 2; of_Z 4; of_Z 6]]]
                 [(half, quarter, quarter)])) /\
    forall tt row,
      nth_error [[of_Z 1; of_Z 2; of_Z 3]; [of_Z 2; of_Z 4; of_Z 6]] tt
      = Some row ->
      exists s1 s2 s3,
        row = [s1; s2; s3] /\
        nth_error col tt = Some (weighted_sum half quarter quarter s1 s2 s3).
Proof.
  apply (WaterLevelReductions_weighted_sum
           [0; 3600]
           [[[of_Z 1; of_Z 2; of_Z 3]; [of_Z 2; of_Z 4; of_Z 6]]]
           [(half, quarter, quarter)]
           (reduced_frame [0; 3600]
              [[[of_Z 1; of_Z 2; of_Z 3]; [of_Z 2; of_Z 4; of_Z 6]]]
              [(half, quarter, quarter)])
           0 [[of_Z 1; of_Z 2; of_Z 3]; [of_Z 2; of_Z 4; of_Z 6]]
           half quarter quarter).
  - vm_compute. reflexivity.
  - reflexivity.
  - reflexivity.
Defined.

(** C7 for the batch of three points on the two-triangle mesh. *)
Lemma GenerateMetadata_rows_witness :
  length (GenerateMetadata (resolved two_ds two_points 2)) = 3%nat /\
  forall i p row,
    nth_error two_points i = Some p ->
    nth_error (elements (queried two_ds two_points 2)) i = Some row ->
    exists jsel e,
      nth_error (final_jvals (resolved two_ds two_points 2)) i = Some jsel /\
      nth_error (GenerateMetadata (resolved two_ds two_points 2)) i
      = Some {| Point := point_label i; LON := fst p; LAT := snd p;
                Element := e |} /\
      ((unresolved (with_tree two_ds) p row /\ e = -99999) \/
       (In jsel row /\ flagged_within (with_tree two_ds) p jsel /\ e = jsel + 1)).
Proof.
  apply (GenerateMetadata_rows two_points (with_tree two_ds) 2
           (queried two_ds two_points 2) (resolved two_ds two_points 2)).
  - reflexivity.
  - vm_compute. reflexivity.
Defined.



(** C5, on the unit right triangle with the batch (1/4, 1/4), (2, 2) and
    one neighbour: the resolution leaves the second point unresolved, with
    the element number -99999 and the outside list [1], and the pipeline
    then raises [IndexError] where the reduction reads the element array
    at -99999; no table is produced, for either point. *)
Theorem Combined_pipeline_unresolved_point_raises :
  Combined_pipeline None unit_ds (Some "zeta"%string)
                    [inside; (of_Z 2, of_Z 2)] 1
  = Raise IndexError /\
  (exists r, ComputeBasisRepresentation
               [inside; (of_Z 2, of_Z 2)] (with_tree unit_ds)
               (queried unit_ds [inside; (of_Z 2, of_Z 2)] 1) = Ok r /\
             final_jvals r = [0; -99999] /\ outside_elements r = [1]).
Proof.
  split.
  - vm_compute. reflexivity.
  - eexists. split; [vm_compute; reflexivity|]. split; reflexivity.
Qed.

(** On the mesh whose only element has zero area the resolution returns
    without an error: the weights of a point on the line of the nodes are
    not-a-number, those of a point off it are infinities, and both points
    are reported outside. *)
Example flat_mesh_resolves_silently :
  match ComputeBasisRepresentation [inside; on_edge] (with_tree flat_ds)
                                   (queried flat_ds [inside; on_edge] 1) with
  | Ok r => (final_jvals r, final_status r, outside_elements r)
  | Raise _ => ([], [], [])
  end = ([-99999; -99999], [false; false], [0; 1])
  /\ batch flat_ds [inside; on_edge] [0; 0]
     = [(NaN, NaN, NaN); (Inf false, Inf true, Inf false)].
Proof. split; vm_compute; reflexivity. Qed.

(* ================================================================== *)
(** * Further properties of the engine *)
(* ================================================================== *)

Lemma py_index_ok_iff {A} (l : list A) (i : Z) :
  (exists a, py_index l i = Ok a) <->
  - Z.of_nat (length l) <= i < Z.of_nat (length l).
Proof.
  split.
  - intros (a & H).
    destruct (Z_lt_dec i (- Z.of_nat (length l))) as [Hlo|Hlo].
    + rewrite py_index_out_of_range in H by lia. discriminate.
    + destruct (Z_le_dec (Z.of_nat (length l)) i) as [Hhi|Hhi]; [|lia].
      rewrite py_index_out_of_range in H by lia. discriminate.
  - intros H. destruct (Z_lt_dec i 0) as [Hneg|Hpos].
    + destruct (nth_error_lt_Some l (Z.to_nat (Z.of_nat (length l) + i)))
        as (a & Ha); [lia|].
      exists a. apply py_index_spec. eexists. split; [|exact Ha].
      unfold py_pos. replace (i <? 0) with true by (symmetry; apply Z.ltb_lt; lia).
      replace (0 <=? Z.of_nat (length l) + i) with true
        by (symmetry; apply Z.leb_le; lia).
      replace (Z.of_nat (length l) + i <? Z.of_nat (length l)) with true
        by (symmetry; apply Z.ltb_lt; lia).
      reflexivity.
    + destruct (py_index_in_range l i) as (a & Ha & _); [lia|]. eauto.
Qed.

Lemma py_index_raises {A} (l : list A) (i : Z) (e : exn) :
  py_index l i = Raise e -> e = IndexError.
Proof.
  unfold py_index. destruct (_ && _).
  - destruct (nth_error _ _); intros H; inversion H; reflexivity.
  - intros H; inversion H; reflexivity.
Qed.

Lemma element_nodes_ok_iff (x y : list float64) (e : triple Z) :
  (exists n, element_nodes x y e = Ok n) <->
  (forall v, v = fst (fst e) \/ v = snd (fst e) \/ v = snd e ->
             (- Z.of_nat (length x) <= v < Z.of_nat (length x)) /\
             (- Z.of_nat (length y) <= v < Z.of_nat (length y))).
Proof.
  destruct e as [[i1 i2] i3]. unfold element_nodes. cbn [fst snd]. split.
  - intros (n & H) v Hv.
    destruct (py_index x i1) eqn:E1; cbn [bind] in H; try discriminate.
    destruct (py_index x i2) eqn:E2; cbn [bind] in H; try discriminate.
    destruct (py_index x i3) eqn:E3; cbn [bind] in H; try discriminate.
    destruct (py_index y i1) eqn:F1; cbn [bind] in H; try discriminate.
    destruct (py_index y i2) eqn:F2; cbn [bind] in H; try discriminate.
    destruct (py_index y i3) eqn:F3; cbn [bind] in H; try discriminate.
    destruct Hv as [-> | [-> | ->]]; split; apply py_index_ok_iff; eauto.
  - intros H.
    destruct (proj2 (py_index_ok_iff x i1)) as (a1 & ->); [apply H; auto|].
    destruct (proj2 (py_index_ok_iff x i2)) as (a2 & ->); [apply H; auto|].
    destruct (proj2 (py_index_ok_iff x i3)) as (a3 & ->); [apply H; auto|].
    destruct (proj2 (py_index_ok_iff y i1)) as (b1 & ->); [apply H; auto|].
    destruct (proj2 (py_index_ok_iff y i2)) as (b2 & ->); [apply H; auto|].
    destruct (proj2 (py_index_ok_iff y i3)) as (b3 & ->); [apply H; auto|].
    cbn [bind]. eauto.
Qed.

Lemma element_nodes_raises (x y : list float64) (e : triple Z) (ex : exn) :
  element_nodes x y e = Raise ex -> ex = IndexError.
Proof.
  destruct e as [[i1 i2] i3]. unfold element_nodes.
  destruct (py_index x i1) eqn:E1; cbn [bind];
    [|intros H; inversion H; subst; eapply py_index_raises; eauto].
  destruct (py_index x i2) eqn:E2; cbn [bind];
    [|intros H; inversion H; subst; eapply py_index_raises; eauto].
  destruct (py_index x i3) eqn:E3; cbn [bind];
    [|intros H; inversion H; subst; eapply py_index_raises; eauto].
  destruct (py_index y i1) eqn:F1; cbn [bind];
    [|intros H; inversion H; subst; eapply py_index_raises; eauto].
  destruct (py_index y i2) eqn:F2; cbn [bind];
    [|intros H; inversion H; subst; eapply py_index_raises; eauto].
  destruct (py_index y i3) eqn:F3; cbn [bind];
    [|intros H; inversion H; subst; eapply py_index_raises; eauto].
  discriminate.
Qed.

Lemma mapM_ok_iff {A B} (f : A -> result B) (l : list A) :
  (exists bs, mapM f l = Ok bs) <-> Forall (fun a => exists b, f a = Ok b) l.
Proof.
  split.
  - intros (bs & H). apply Forall_forall. intros a Ha.
    apply In_nth_error in Ha as (i & Hi).
    destruct (mapM_nth_error _ _ _ _ _ H Hi) as (b & Hb & _). eauto.
  - intros H. apply mapM_ok. rewrite Forall_forall in H. exact H.
Qed.

Lemma mapM_raises {A B} (f : A -> result B) (l : list A) (e : exn) :
  mapM f l = Raise e -> exists a, In a l /\ f a = Raise e.
Proof.
  induction l as [|a l IH]; simpl; [discriminate|].
  destruct (f a) as [b|e'] eqn:Ef; cbn [bind].
  - destruct (mapM f l) as [bs|e'']; cbn [bind]; [discriminate|].
    intros H; inversion H; subst.
    destruct (IH eq_refl) as (a' & Hin & Ha'). eauto.
  - intros H; inversion H; subst. eauto.
Qed.

(** X1.  Loading the mesh of a dataset and attaching the areas returns
    exactly when every node number of every element lies in [1-n .. n] for
    both coordinate arrays; it then keeps the coordinates and the
    connectivity and holds one area per element; and the only way it fails
    is an [IndexError]. *)
Theorem attach_element_areas_accepts (ds : dataset) :
  ((exists ag, attach_element_areas (get_adcirc_grid_from_ds ds) = Ok ag) <->
   Forall (element_accepted ds) (ds_element ds)) /\
  (forall ag, attach_element_areas (get_adcirc_grid_from_ds ds) = Ok ag ->
     lon ag = ds_x ds /\ lat ag = ds_y ds /\
     ele ag = map (fun '(a, b, c) => (a - 1, b - 1, c - 1)) (ds_element ds) /\
     exists ar, areas ag = Some ar /\ length ar = length (ds_element ds)) /\
  (forall e, attach_element_areas (get_adcirc_grid_from_ds ds) = Raise e ->
             e = IndexError).
Proof.
  unfold attach_element_areas, get_adcirc_grid_from_ds. cbn [lon lat ele].
  split; [|split].
  - split.
    + intros (ag & H).
      destruct (mapM _ _) as [ar|] eqn:E; cbn [bind] in H; [|discriminate].
      apply Forall_forall. intros [[a b] c] Hin.
      assert (Hex : exists bs, mapM (element_area (ds_x ds) (ds_y ds))
                 (map (fun '(a, b, c) => (a - 1, b - 1, c - 1)) (ds_element ds))
                 = Ok bs) by eauto.
      pose proof (proj1 (mapM_ok_iff _ _) Hex) as Hex'.
      clear Hex. rename Hex' into Hex. rewrite Forall_forall in Hex.
      destruct (Hex (a - 1, b - 1, c - 1)) as (A & HA).
      { apply in_map_iff. exists (a, b, c). auto. }
      apply element_area_inv in HA as (x1 & x2 & x3 & y1 & y2 & y3 & Hn & _).
      assert (Hok : exists n, element_nodes (ds_x ds) (ds_y ds)
                                (a - 1, b - 1, c - 1) = Ok n) by eauto.
      pose proof (proj1 (element_nodes_ok_iff _ _ _) Hok) as Hok'.
      clear Hok. rename Hok' into Hok. cbn [fst snd] in Hok.
      unfold element_accepted, node_number_accepted. cbn [fst snd].
      pose proof (Hok (a - 1) (or_introl eq_refl)).
      pose proof (Hok (b - 1) (or_intror (or_introl eq_refl))).
      pose proof (Hok (c - 1) (or_intror (or_intror eq_refl))).
      lia.
    + intros HF.
      assert (Hex : exists bs, mapM (element_area (ds_x ds) (ds_y ds))
                 (map (fun '(a, b, c) => (a - 1, b - 1, c - 1)) (ds_element ds))
                 = Ok bs).
      { apply mapM_ok. intros e Hin.
        apply in_map_iff in Hin as ([[a b] c] & <- & Hin).
        rewrite Forall_forall in HF. specialize (HF _ Hin).
        unfold element_accepted, node_number_accepted in HF. cbn [fst snd] in HF.
        destruct (proj2 (element_nodes_ok_iff (ds_x ds) (ds_y ds)
                           (a - 1, b - 1, c - 1)))
          as ([[[x1 x2] x3] [[y1 y2] y3]] & Hn).
        { cbn [fst snd]. intros v [-> | [-> | ->]]; lia. }
        unfold element_area. rewrite Hn. cbn [bind]. eauto. }
      destruct Hex as (bs & ->). cbn [bind]. eauto.
  - intros ag H.
    destruct (mapM _ _) as [ar|] eqn:E; cbn [bind] in H; [|discriminate].
    inversion H; subst ag; cbn. repeat split; auto.
    exists ar. split; auto.
    rewrite (mapM_length _ _ _ E). apply length_map.
  - intros e H.
    destruct (mapM _ _) as [ar|e'] eqn:E; cbn [bind] in H; [discriminate|].
    inversion H; subst e'.
    apply mapM_raises in E as (el & _ & Hel).
    unfold element_area in Hel.
    destruct (element_nodes _ _ el) as [[[[x1 x2] x3] [[y1 y2] y3]]|e'] eqn:En;
      cbn [bind] in Hel; [discriminate|].
    inversion Hel; subst e'. eapply element_nodes_raises; eauto.
Qed.

Lemma nth_error_last {A} (l : list A) (a d : A) :
  nth_error l (length l - 1) = Some a -> a = last l d.
Proof.
  induction l as [|x l IH]; [simpl; discriminate|].
  destruct l as [|y l].
  - simpl. intros H; inversion H; reflexivity.
  - intros H. change (last (x :: y :: l) d) with (last (y :: l) d).
    apply IH.
    replace (length (x :: y :: l) - 1)%nat with (S (length (y :: l) - 1)) in H
      by (simpl; lia).
    exact H.
Qed.

Lemma py_index_minus_one {A} (l : list A) (d a : A) :
  py_index l (-1) = Ok a -> a = last l d.
Proof.
  intros H. apply py_index_spec in H as (k & Hk & Ha).
  unfold py_pos in Hk. cbn [Z.ltb Z.compare] in Hk.
  destruct (_ && _) eqn:E; [|discriminate].
  inversion Hk; subst k. clear Hk.
  apply andb_true_iff in E as [E1 E2]. apply Z.leb_le in E1.
  replace (Z.to_nat (Z.of_nat (length l) + -1)) with (length l - 1)%nat in Ha
    by lia.
  apply nth_error_last. exact Ha.
Qed.

(** X2.  The node number 0 of a connectivity read as 1-based is not
    rejected: made 0-based it is the index -1, and the element takes the
    coordinates of the last node of the mesh. *)
Theorem node_number_zero_reads_last_node
  (ds : dataset) (ag : agdict) (b c : Z) :
  attach_element_areas (get_adcirc_grid_from_ds ds) = Ok ag ->
  In (0, b, c) (ds_element ds) ->
  In (-1, b - 1, c - 1) (ele ag) /\
  exists x2 x3 y2 y3,
    element_nodes (lon ag) (lat ag) (-1, b - 1, c - 1)
    = Ok ((last (ds_x ds) NaN, x2, x3), (last (ds_y ds) NaN, y2, y3)).
Proof.
  intros Hatt Hin.
  destruct (attach_element_areas_inv _ _ Hatt)
    as (Hlon & Hlat & Hele & _ & ar & _ & Hm).
  cbn in Hlon, Hlat, Hele.
  assert (Hin' : In (-1, b - 1, c - 1) (ele ag)).
  { rewrite Hele. apply in_map_iff. exists (0, b, c). auto. }
  split; [exact Hin'|].
  apply In_nth_error in Hin' as (k & Hk).
  destruct (mapM_nth_error _ _ _ _ _ Hm Hk) as (A & HA & _).
  apply element_area_inv in HA as (x1 & x2 & x3 & y1 & y2 & y3 & Hn & _).
  exists x2, x3, y2, y3. rewrite Hn.
  rewrite Hlon, Hlat in Hn. unfold element_nodes in Hn.
  destruct (py_index (ds_x ds) (-1)) as [v1|] eqn:E1; cbn [bind] in Hn;
    [|discriminate].
  destruct (py_index (ds_x ds) (b - 1)); cbn [bind] in Hn; [|discriminate].
  destruct (py_index (ds_x ds) (c - 1)); cbn [bind] in Hn; [|discriminate].
  destruct (py_index (ds_y ds) (-1)) as [w1|] eqn:F1; cbn [bind] in Hn;
    [|discriminate].
  destruct (py_index (ds_y ds) (b - 1)); cbn [bind] in Hn; [|discriminate].
  destruct (py_index (ds_y ds) (c - 1)); cbn [bind] in Hn; [|discriminate].
  inversion Hn; subst.
  rewrite (py_index_minus_one _ NaN _ E1), (py_index_minus_one _ NaN _ F1).
  reflexivity.
Qed.

(** X3.  [return_sorted_years] returns a pair exactly when both years lie
    in 1979..2022; the pair is then the two years in ascending order,
    whichever order they were given in, and the only thing printed is the
    year range. *)
Theorem return_sorted_years_returns_iff (a b lo hi : Z) :
  (snd (return_sorted_years (a, b)) = Ok (lo, hi) <->
   (1979 <= a <= 2022) /\ (1979 <= b <= 2022) /\
   lo = Z.min a b /\ hi = Z.max a b) /\
  (snd (return_sorted_years (a, b)) = Ok (lo, hi) ->
   fst (return_sorted_years (a, b)) = [Msg_year_range (lo, hi)] /\
   return_sorted_years (b, a) = return_sorted_years (a, b)).
Proof.
  split; [apply return_sorted_years_ok_iff|].
  intros H.
  pose proof (proj1 (return_sorted_years_ok_iff a b lo hi) H)
    as (Ha & Hb & Hlo & Hhi).
  assert (Hba : snd (return_sorted_years (b, a)) = Ok (lo, hi)).
  { apply return_sorted_years_ok_iff. repeat split; lia. }
  revert H Hba. unfold return_sorted_years.
  destruct (all_truthy (a, b)); destruct (all_truthy (b, a));
    cbn [fst snd]; try discriminate.
  destruct (sorted_pair (in_years a) (in_years b)) as [yt|];
    destruct (sorted_pair (in_years b) (in_years a)) as [yt'|];
    cbn [fst snd]; try discriminate.
  intros H1 H2. inversion H1; inversion H2; subst. auto.
Qed.

(** X4.  The diagnostic exit of [return_sorted_years] (the two messages and
    [sys.exit(1)]) is taken exactly when one of the two years is 0, whether
    or not the other year is in range. *)
Theorem return_sorted_years_exit_iff (a b : Z) :
  return_sorted_years (a, b)
  = ([Msg_out_of_range (a, b); Msg_available YEARS], Raise SystemExit) <->
  a = 0 \/ b = 0.
Proof.
  unfold return_sorted_years, all_truthy. cbn [fst snd].
  destruct (Z.eq_dec a 0) as [->|Ha].
  - split; [auto|reflexivity].
  - destruct (Z.eq_dec b 0) as [->|Hb].
    + apply Z.eqb_neq in Ha. rewrite Ha. split; [auto|reflexivity].
    + pose proof Ha as Ha'. pose proof Hb as Hb'.
      apply Z.eqb_neq in Ha'. apply Z.eqb_neq in Hb'. rewrite Ha', Hb'.
      cbn [negb andb]. split; [|intros [H|H]; contradiction].
      destruct (sorted_pair (in_years a) (in_years b)); discriminate.
Qed.

(** X5.  Once a tree is cached, [ComputeTree] never builds another: a
    second call, for whatever mesh, attaches the tree of the first call
    and leaves the cache as it was; the first call builds one centroid per
    element. *)
Theorem ComputeTree_reuses_cached_tree
  (agA agB agA' agB' : agdict) (g1 g2 : option kdtree) :
  ComputeTree None agA = Ok (agA', g1) ->
  ComputeTree g1 agB = Ok (agB', g2) ->
  (exists t, tree agA' = Some t /\ length t = length (ele agA) /\
             tree agB' = Some t /\ g1 = Some t /\ g2 = Some t) /\
  lon agB' = lon agB /\ lat agB' = lat agB /\ ele agB' = ele agB /\
  areas agB' = areas agB.
Proof.
  intros HA HB.
  apply ComputeTree_inv in HA as (_ & _ & _ & _ & t & Ht & -> & Hlen).
  unfold ComputeTree in HB.
  destruct (mapM _ (ele agB)) as [c|]; cbn [bind] in HB; [|discriminate].
  inversion HB; subst; cbn. split; auto.
  exists t. auto.
Qed.

(** X6.  A run of [Combined_pipeline] that starts with an empty cache and
    returns can be repeated with the cache it left: the second run returns
    the same three tables and leaves the same cache. *)
Theorem Combined_pipeline_repeatable
  (ds : dataset) (variable_name : option string) (geopoints : list point)
  (nearest_neighbors : nat) (df : dataframe) (meta : list meta_row)
  (excluded : list excluded_row) (g : option kdtree) :
  Combined_pipeline None ds variable_name geopoints nearest_neighbors
  = Ok (df, meta, excluded, g) ->
  Combined_pipeline g ds variable_name geopoints nearest_neighbors
  = Ok (df, meta, excluded, g).
Proof.
  unfold Combined_pipeline.
  destruct (attach_element_areas (get_adcirc_grid_from_ds ds)) as [ag|];
    cbn [bind]; [|discriminate].
  unfold ComputeTree.
  destruct (mapM (centroid (lon ag) (lat ag)) (ele ag)) as [c|];
    cbn [bind]; [|discriminate].
  cbv beta iota zeta. cbn [bind].
  destruct (ComputeQuery _ _ _) as [q|] eqn:Eq; cbn [bind]; [|discriminate].
  destruct (ComputeBasisRepresentation _ _ _) as [r|] eqn:Er; cbn [bind];
    [|discriminate].
  destruct (ConstructReducedWaterLevelData_from_ds _ _ _ _) as [red|] eqn:Ered;
    cbn [bind]; [|discriminate].
  destruct (mapM _ (outside_elements r)) as [ex|] eqn:Eex; cbn [bind];
    [|discriminate].
  intros H. inversion H; subst. cbv beta iota zeta. cbn [bind].
  rewrite Eq. cbn [bind].
  rewrite Er. cbn [bind]. rewrite Ered. cbn [bind]. rewrite Eex. reflexivity.
Qed.

(** A singleton batch on a mesh with its areas attached, for an element of
    finite nonzero signed area: the vertices are finite and the weights
    are the closed form. *)
Lemma basis2d_singleton_finite
      (ag0 ag : agdict) (xp yp : Qc) (ji : Z) (e : triple Z)
      (x1 x2 x3 y1 y2 y3 : float64) (a : Qc) (ph : phi) :
  attach_element_areas ag0 = Ok ag ->
  py_index (ele ag) ji = Ok e ->
  element_nodes (lon ag) (lat ag) e = Ok ((x1, x2, x3), (y1, y2, y3)) ->
  signed_area x1 y1 x2 y2 x3 y3 = Fin a -> a <> 0%Qc ->
  basis2d ag [(Fin xp, Fin yp)] [ji] = Ok [ph] ->
  exists a1 b1 a2 b2 a3 b3,
    x1 = Fin a1 /\ y1 = Fin b1 /\ x2 = Fin a2 /\ y2 = Fin b2 /\
    x3 = Fin a3 /\ y3 = Fin b3 /\ a = area_Qc a1 b1 a2 b2 a3 b3 /\
    ph = (let '(p0, p1, p2) := weights_Qc a1 b1 a2 b2 a3 b3 a xp yp in
          (Fin p0, Fin p1, Fin p2)).
Proof.
  intros Hatt He Hn HA Hne Hb.
  destruct (basis2d_at_total _ _ (Fin xp, Fin yp) _ _ Hatt He)
    as (x1' & x2' & x3' & y1' & y2' & y3' & ar & Hn' & _ & _ & Hat).
  rewrite Hn in Hn'. inversion Hn'; subst x1' x2' x3' y1' y2' y3'. clear Hn'.
  unfold basis2d in Hb. cbn [length Nat.eqb combine mapM bind] in Hb.
  rewrite Hat in Hb. cbn [bind] in Hb. inversion Hb; subst ph. clear Hb.
  destruct (signed_area_fin_inv _ _ _ _ _ _ _ HA)
    as (a1 & b1 & a2 & b2 & a3 & b3 & -> & -> & -> & -> & -> & ->).
  exists a1, b1, a2, b2, a3, b3. repeat split; auto.
  - rewrite signed_area_Fin in HA. inversion HA. reflexivity.
  - rewrite HA. cbn [fst snd]. rewrite basis2d_row_Fin by exact Hne.
    reflexivity.
Qed.

Lemma Qc_area_neq (a1 b1 a2 b2 a3 b3 : Qc) :
  area_Qc a1 b1 a2 b2 a3 b3 <> 0%Qc ->
  (a1 * (b2 - b3) + a2 * (b3 - b1) + a3 * (b1 - b2))%Qc <> 0%Qc.
Proof.
  intros HA H. apply HA. unfold area_Qc, Qcdiv. rewrite H. ring.
Qed.

(** X7.  For an element of nonzero area the weights [basis2d] returns
    reproduce the query point from the vertices:
    [phi0*x1 + phi1*x2 + phi2*x3 = xp] and likewise for [y], wherever the
    point lies. *)
Theorem basis2d_reproduces_point
  (ag0 ag : agdict) (xp yp : Qc) (ji : Z) (e : triple Z)
  (x1 x2 x3 y1 y2 y3 : float64) (a : Qc) (p0 p1 p2 : float64) :
  attach_element_areas ag0 = Ok ag ->
  py_index (ele ag) ji = Ok e ->
  element_nodes (lon ag) (lat ag) e = Ok ((x1, x2, x3), (y1, y2, y3)) ->
  signed_area x1 y1 x2 y2 x3 y3 = Fin a -> a <> 0%Qc ->
  basis2d ag [(Fin xp, Fin yp)] [ji] = Ok [(p0, p1, p2)] ->
  (p0 * x1 + p1 * x2 + p2 * x3)%F = Fin xp /\
  (p0 * y1 + p1 * y2 + p2 * y3)%F = Fin yp.
Proof.
  intros Hatt He Hn HA Hne Hb.
  destruct (basis2d_singleton_finite _ _ _ _ _ _ _ _ _ _ _ _ _ _
              Hatt He Hn HA Hne Hb)
    as (a1 & b1 & a2 & b2 & a3 & b3 & -> & -> & -> & -> & -> & -> & Ha & Hph).
  unfold weights_Qc in Hph. inversion Hph; subst p0 p1 p2. clear Hph.
  pose proof Hne as Hne'. rewrite Ha in Hne'. apply Qc_area_neq in Hne'.
  cbn [fmul fadd]. rewrite Ha. unfold area_Qc.
  split; apply (f_equal Fin); field; (split; [discriminate|exact Hne']).
Qed.



(** X10.  The three outputs of the resolution agree for every point:
    either the flag is true, the point is not in the outside list, the
    element number is one of the point's candidates and the weights are
    that candidate's weights and pass the containment test; or the flag is
    false, the point is in the outside list, the element number is -99999
    and the weights are not-a-number. *)
Theorem resolution_outputs_agree
  (xylist : list point) (ag : agdict) (q : query_results) (r : basis_results)
  (i : nat) (p : point) (row : list Z) :
  ComputeBasisRepresentation xylist ag q = Ok r ->
  well_shaped q ->
  nth_error xylist i = Some p -> nth_error (elements q) i = Some row ->
  (nth_error (final_status r) i = Some true /\
   ~ In (Z.of_nat i) (outside_elements r) /\
   exists ph jk,
     nth_error (final_weights r) i = Some ph /\
     nth_error (final_jvals r) i = Some jk /\
     In jk row /\ basis2d ag [p] [jk] = Ok [ph] /\
     basis2d_withinElement [ph] = [true]) \/
  (nth_error (final_status r) i = Some false /\
   In (Z.of_nat i) (outside_elements r) /\
   nth_error (final_weights r) i = Some (NaN, NaN, NaN) /\
   nth_error (final_jvals r) i = Some (-99999)).
Proof.
  intros H Hwf Hp Hrow.
  destruct (ComputeBasisRepresentation_point _ _ _ _ _ _ _ H Hwf Hp Hrow)
    as (cands & Hc & Hfw & Hfj & Hfs).
  pose proof (ComputeBasisRepresentation_inv _ _ _ _ H)
    as (_ & _ & _ & _ & _ & _ & _ & Hout).
  destruct (pick_nearest_within_cases cands)
    as [(ph & jk & Hpick & Hin & Hw)|[Hpick Hall]];
    rewrite Hpick in Hfw, Hfj, Hfs; cbn [fst snd] in Hfw, Hfj, Hfs.
  - left. split; [exact Hfs|]. split.
    + rewrite Hout, argwhere_all_nan_spec.
      intros (i' & ph' & Hi & Hph' & Hnan).
      apply Nat2Z.inj in Hi. subst i'. rewrite Hfw in Hph'.
      inversion Hph'; subst ph'.
      apply within_row_not_nan in Hw. congruence.
    + exists ph, jk. apply In_nth_error in Hin as (k & Hk).
      destruct (candidates_nth _ _ _ _ _ _ Hc Hk) as (Hrk & Hat).
      cbn [fst snd] in Hrk, Hat.
      repeat split; auto.
      * eapply nth_error_In; eauto.
      * unfold basis2d. cbn [length Nat.eqb combine mapM bind].
        rewrite Hat. reflexivity.
      * cbn [basis2d_withinElement map]. rewrite Hw. reflexivity.
  - right. repeat split; auto.
    rewrite Hout, argwhere_all_nan_spec. exists i, nan3. auto.
Qed.

Lemma mapM_map_ok {A B} (f : A -> result B) (g : A -> B) (l : list A) :
  (forall a, In a l -> f a = Ok (g a)) -> mapM f l = Ok (map g l).
Proof.
  induction l as [|a l IH]; simpl; intros H; auto.
  rewrite H by auto. cbn [bind]. rewrite IH by auto. reflexivity.
Qed.

(** X11.  The resolution treats every point on its own: resolving point
    [i] of a batch alone, with its own candidate row, returns, and gives
    the point the element number, the weights and the flag it has in the
    batch. *)
Theorem resolution_is_pointwise
  (xylist : list point) (ag : agdict) (q : query_results) (r : basis_results)
  (i : nat) (p : point) (row : list Z) (drow : list float64) :
  ComputeBasisRepresentation xylist ag q = Ok r ->
  well_shaped q ->
  nth_error xylist i = Some p -> nth_error (elements q) i = Some row ->
  exists r1,
    ComputeBasisRepresentation [p] ag (single_query q p row drow) = Ok r1 /\
    nth_error (final_weights r) i = nth_error (final_weights r1) 0 /\
    nth_error (final_jvals r) i = nth_error (final_jvals r1) 0 /\
    nth_error (final_status r) i = nth_error (final_status r1) 0 /\
    length (final_jvals r1) = 1%nat.
Proof.
  intros H Hwf Hp Hrow.
  destruct (ComputeBasisRepresentation_point _ _ _ _ _ _ _ H Hwf Hp Hrow)
    as (cands & Hc & Hfw & Hfj & Hfs).
  destruct (ComputeBasisRepresentation_lengths _ _ _ _ H)
    as (_ & _ & _ & _ & Hk1).
  assert (Hrowlen : length row = number_neighbors q).
  { unfold well_shaped in Hwf. rewrite Forall_forall in Hwf.
    apply Hwf. eapply nth_error_In; eauto. }
  set (q1 := single_query q p row drow).
  assert (Hwf1 : well_shaped q1).
  { unfold well_shaped, q1, single_query. cbn. constructor; auto. }
  assert (Hcol : forall k, (k < number_neighbors q)%nat ->
            exists jk ph, nth_error row k = Some jk /\
                          basis2d_at ag p jk = Ok ph).
  { intros k Hk. destruct (nth_error_lt_Some row k) as (jk & Hjk); [lia|].
    destruct (candidates_nth_row _ _ _ _ _ _ Hc Hjk) as (ph & Hph & _).
    eauto. }
  assert (Htab : exists pl, basis_tables [p] ag q1 = Ok pl).
  { unfold basis_tables. apply mapM_ok. intros k Hin. apply in_seq in Hin.
    cbn [number_neighbors q1 single_query] in Hin.
    destruct (Hcol k) as (jk & ph & Hjk & Hph); [lia|].
    unfold q1, single_query. cbn [elements]. unfold column.
    cbn [mapM]. rewrite Hjk. cbn [bind]. unfold basis2d.
    cbn [length Nat.eqb combine mapM bind]. rewrite Hph. cbn [bind]. eauto. }
  destruct Htab as (pl & Hpl).
  destruct (basis_tables_nth _ _ _ _ Hpl) as (Hlpl & _).
  cbn [number_neighbors q1 single_query] in Hlpl.
  destruct pl as [|phival0 rest]; [simpl in Hlpl; lia|].
  assert (HjT : exists jT, transpose (elements q1) = Ok jT).
  { unfold q1, single_query. cbn [elements transpose].
    apply mapM_ok. intros k Hin. apply in_seq in Hin.
    destruct (Hcol k) as (jk & ph & Hjk & _); [lia|].
    unfold column. cbn [mapM]. rewrite Hjk. cbn [bind]. eauto. }
  destruct HjT as (jT & HjT).
  assert (Hr1 : exists r1, ComputeBasisRepresentation [p] ag q1 = Ok r1).
  { unfold ComputeBasisRepresentation. rewrite Hpl. cbn [bind].
    rewrite HjT. cbn [bind].
    match goal with
    | |- context [fold_left overwrite ?l ?i] =>
        destruct (fold_left overwrite l i) as [[fw fj] fs]
    end.
    eauto. }
  destruct Hr1 as (r1 & Hr1). exists r1. split; [exact Hr1|].
  destruct (ComputeBasisRepresentation_point [p] ag q1 r1 0 p row
              Hr1 Hwf1 eq_refl eq_refl)
    as (cands1 & Hc1 & Hfw1 & Hfj1 & Hfs1).
  rewrite Hc in Hc1. inversion Hc1; subst cands1.
  destruct (ComputeBasisRepresentation_lengths _ _ _ _ Hr1)
    as (_ & _ & Hl & _).
  repeat split; try congruence. exact Hl.
Qed.

Lemma mapM_raise_first {A B} (f : A -> result B) (l1 l2 : list A) (a : A)
      (e : exn) :
  (forall x, In x l1 -> exists b, f x = Ok b) -> f a = Raise e ->
  mapM f (l1 ++ a :: l2) = Raise e.
Proof.
  intros Hok Ha. induction l1 as [|x l1 IH]; simpl.
  - rewrite Ha. reflexivity.
  - destruct (Hok x) as (b & ->); [left; reflexivity|]. cbn [bind].
    rewrite IH; [reflexivity|]. intros y Hy. apply Hok. right. exact Hy.
Qed.

Lemma kd_query1_nth (t : kdtree) (p : point) (kmax k : nat) :
  (k < kmax)%nat ->
  exists d j, nth_error (kd_query1 t p kmax) k = Some (d, j) /\
              ((k < length t)%nat -> 0 <= j < Z.of_nat (length t)) /\
              ((length t <= k)%nat -> j = Z.of_nat (length t)).
Proof.
  intros Hk.
  destruct (nth_error_lt_Some (kd_query1 t p kmax) k) as ([d j] & Hdj).
  { rewrite kd_query1_length. exact Hk. }
  exists d, j. split; [exact Hdj|].
  unfold kd_query1 in Hdj. rewrite nth_error_firstn in Hdj.
  replace (k <? kmax)%nat with true in Hdj
    by (symmetry; apply Nat.ltb_lt; exact Hk).
  split; intros Hlt.
  - rewrite nth_error_app1 in Hdj by (rewrite all_neighbors_length; lia).
    apply nth_error_In in Hdj. eapply all_neighbors_In; eauto.
  - rewrite nth_error_app2 in Hdj by (rewrite all_neighbors_length; lia).
    apply nth_error_In in Hdj. apply repeat_spec in Hdj.
    inversion Hdj. reflexivity.
Qed.

(** X12.  Asking for more neighbours than the mesh has elements always
    fails: for a batch that is not empty, on a mesh with its areas attached
    and its tree built, the resolution of such a query raises
    [IndexError]. *)
Theorem more_neighbors_than_elements_raises
  (ag0 ag1 ag : agdict) (got : option kdtree) (xylist : list point)
  (kmax : nat) (q : query_results) :
  attach_element_areas ag0 = Ok ag1 ->
  ComputeTree None ag1 = Ok (ag, got) ->
  xylist <> [] -> (length (ele ag) < kmax)%nat ->
  ComputeQuery xylist ag kmax = Ok q ->
  ComputeBasisRepresentation xylist ag q = Raise IndexError.
Proof.
  intros Hatt Htree Hne Hk Hq.
  pose proof (ComputeTree_attached _ _ _ Htree
                (attach_element_areas_attached _ _ Hatt)) as Ha.
  apply ComputeTree_inv in Htree as (_ & _ & Hele & _ & t & Ht & _ & Hlen).
  rewrite <- Hele in Hlen.
  pose proof (ComputeQuery_inv _ _ _ _ Hq) as (t' & Ht' & He & _ & Hnn & _).
  rewrite Ht in Ht'. inversion Ht'; subst t'. clear Ht'.
  set (n := length (ele ag)) in *.
  assert (Hcolumn : forall k, (k < kmax)%nat ->
            exists jk, column (elements q) k = Ok jk /\
                       length jk = length xylist /\
                       forall ji, In ji jk ->
                         ((k < n)%nat -> 0 <= ji < Z.of_nat n) /\
                         ((n <= k)%nat -> ji = Z.of_nat n)).
  { intros k Hlt.
    destruct (mapM_ok (fun row : list Z =>
                         match nth_error row k with
                         | Some v => Ok v
                         | None => Raise IndexError
                         end) (elements q)) as (jk & Hjk).
    { intros row Hrow. rewrite He in Hrow.
      apply in_map_iff in Hrow as (p & <- & _).
      destruct (kd_query1_nth t p kmax k Hlt) as (d & j & Hdj & _).
      rewrite (map_nth_error snd _ _ Hdj). eauto. }
    exists jk. split; [exact Hjk|]. split.
    { rewrite (mapM_length _ _ _ Hjk), He. apply length_map. }
    intros ji Hin. apply In_nth_error in Hin as (i & Hi).
    destruct (mapM_nth_error_inv _ _ _ _ _ Hjk Hi) as (row & Hrow & Hv).
    destruct (nth_error row k) as [v|] eqn:Ev; [|discriminate].
    inversion Hv; subst v. clear Hv.
    rewrite He in Hrow. apply nth_error_map_Some in Hrow as (p & _ & ->).
    apply nth_error_map_Some in Ev as ([d' j'] & Hdj' & ->).
    destruct (kd_query1_nth t p kmax k Hlt) as (d & j & Hdj & H1 & H2).
    pose proof (eq_trans (eq_sym Hdj') Hdj) as Heq.
    inversion Heq; subst d' j'. cbn [snd].
    rewrite Hlen in H1, H2. auto. }
  unfold ComputeBasisRepresentation, basis_tables. rewrite Hnn.
  replace (seq 0 kmax) with (seq 0 n ++ n :: seq (S n) (kmax - S n)).
  2:{ change (n :: seq (S n) (kmax - S n)) with (seq n (S (kmax - S n))).
      rewrite <- seq_app. f_equal. lia. }
  rewrite (mapM_raise_first _ _ _ _ IndexError); [reflexivity| |].
  - intros k Hin. apply in_seq in Hin.
    destruct (Hcolumn k) as (jk & -> & Hl & Hv); [lia|]. cbn [bind].
    unfold basis2d.
    replace (Nat.eqb (length xylist) (length jk)) with true
      by (symmetry; apply Nat.eqb_eq; lia).
    apply mapM_ok. intros [p ji] Hpj. apply in_combine_r in Hpj.
    apply basis2d_at_ok; auto. apply Hv; auto. lia.
  - destruct (Hcolumn n) as (jk & -> & Hl & Hv); [lia|]. cbn [bind].
    unfold basis2d.
    replace (Nat.eqb (length xylist) (length jk)) with true
      by (symmetry; apply Nat.eqb_eq; lia).
    destruct xylist as [|p0 rest]; [congruence|].
    destruct jk as [|j0 jrest]; [simpl in Hl; lia|].
    cbn [combine mapM]. unfold basis2d_at.
    rewrite py_index_out_of_range; [reflexivity|].
    right. destruct (Hv j0 (or_introl eq_refl)) as [_ ->]; fold n; lia.
Qed.

Lemma py_pos_lt (n : nat) (i : Z) (k : nat) :
  py_pos n i = Some k -> (k < n)%nat.
Proof.
  unfold py_pos.
  destruct (_ && _) eqn:E; [|discriminate].
  apply andb_true_iff in E as [E1 E2].
  apply Z.leb_le in E1. apply Z.ltb_lt in E2.
  intros H; inversion H; subst. lia.
Qed.

(** Python indexing, by the position it reads. *)
Lemma py_index_by_pos {A} (l : list A) (i : Z) (d : A) :
  py_index l i = match py_pos (length l) i with
                 | Some k => Ok (nth k l d)
                 | None => Raise IndexError
                 end.
Proof.
  destruct (py_pos (length l) i) as [k|] eqn:E.
  - apply py_index_spec. exists k. split; [exact E|].
    apply nth_error_nth'. eapply py_pos_lt; eauto.
  - destruct (py_index l i) as [a|e] eqn:E'.
    + apply py_index_spec in E' as (k & Hk & _). congruence.
    + f_equal. revert E'. unfold py_index. destruct (_ && _).
      * destruct (nth_error _ _); intros H; inversion H; reflexivity.
      * intros H; inversion H; reflexivity.
Qed.

Lemma map_nth_seq {A B} (f : A -> B) (l : list A) (d : A) :
  map (fun t => f (nth t l d)) (seq 0 (length l)) = map f l.
Proof.
  assert (H : forall s, map (fun t => f (nth (t - s) l d)) (seq s (length l))
                        = map f l).
  { induction l as [|a l IH]; intros s; simpl; auto.
    rewrite Nat.sub_diag. f_equal. rewrite <- (IH (S s)).
    apply map_ext_in. intros t Ht. apply in_seq in Ht.
    replace (t - s)%nat with (S (t - S s)) by lia. reflexivity. }
  rewrite <- (H 0%nat). apply map_ext. intros t. rewrite Nat.sub_0_r.
  reflexivity.
Qed.

Lemma mapM_cons_raise {A B} (f : A -> result B) (a : A) (l : list A) (e : exn) :
  f a = Raise e -> mapM f (a :: l) = Raise e.
Proof. intros H. cbn [mapM]. rewrite H. reflexivity. Qed.

Lemma nth_map_lt {A B} (f : A -> B) (l : list A) (n : nat) (d : A) (d' : B) :
  (n < length l)%nat -> nth n (map f l) d' = f (nth n l d).
Proof.
  intros H. rewrite (nth_indep _ d' (f d)) by (rewrite length_map; exact H).
  apply map_nth.
Qed.

(** The columns of a rectangular array. *)
Lemma transpose_rectangular (row0 : list float64) (rows : list (list float64))
      (cols : list (list float64)) :
  Forall (fun row => length row = length row0) rows ->
  transpose (row0 :: rows) = Ok cols ->
  cols = map (fun c => map (fun row => nth c row NaN) (row0 :: rows))
             (seq 0 (length row0)).
Proof.
  intros HF H. unfold transpose in H.
  rewrite (mapM_map_ok _ (fun c => map (fun row => nth c row NaN) (row0 :: rows)))
    in H.
  - inversion H. reflexivity.
  - intros c Hc. apply in_seq in Hc. unfold column.
    apply mapM_map_ok. intros row Hrow.
    rewrite (nth_error_nth' row NaN); [reflexivity|].
    destruct Hrow as [<-|Hrow]; [lia|].
    rewrite Forall_forall in HF. rewrite (HF _ Hrow). lia.
Qed.

(** X13.  The two axis conventions give the same nodal series: for a
    rectangular array [rows] (time by node) and its transpose [cols] (node
    by time), the slice of a variable stored time-leading as [rows] and the
    slice of one stored node-leading as [cols], at the same three nodes,
    are the same array, or both raise [IndexError]. *)
Theorem axis_conventions_agree
  (ds_t ds_n : dataset) (v : string) (dims_t dims_n : list string)
  (row0 : list float64) (rows cols : list (list float64)) (n1 n2 n3 : Z) :
  re_search "max" v = false -> re_search "depth" v = false ->
  lookup v (ds_variables ds_t)
  = Ok {| dims := "time"%string :: dims_t; data := Arr2 (row0 :: rows) |} ->
  lookup v (ds_variables ds_n)
  = Ok {| dims := "node"%string :: dims_n; data := Arr2 cols |} ->
  Forall (fun row => length row = length row0) rows ->
  transpose (row0 :: rows) = Ok cols ->
  get_adcirc_slice_from_ds ds_t v [n1; n2; n3]
  = get_adcirc_slice_from_ds ds_n v [n1; n2; n3] /\
  (forall e, get_adcirc_slice_from_ds ds_t v [n1; n2; n3] = Raise e ->
             e = IndexError).
Proof.
  intros Hmax Hdepth Ht Hn HF HT.
  pose proof (transpose_rectangular _ _ _ HF HT) as Hcols.
  assert (Hlc : length cols = length row0).
  { rewrite Hcols, length_map, length_seq. reflexivity. }
  unfold get_adcirc_slice_from_ds. rewrite Ht, Hn. cbn [bind dims data].
  rewrite Hmax, Hdepth. cbn [orb bind].
  replace (String.eqb "time" "node") with false by reflexivity.
  replace (String.eqb "time" "time") with true by reflexivity.
  replace (String.eqb "node" "node") with true by reflexivity.
  set (N := length row0) in *.
  assert (Hrowf : forall row, In row (row0 :: rows) ->
            mapM (py_index row) [n1; n2; n3]
            = match py_pos N n1, py_pos N n2, py_pos N n3 with
              | Some c1, Some c2, Some c3 =>
                  Ok [nth c1 row NaN; nth c2 row NaN; nth c3 row NaN]
              | _, _, _ => Raise IndexError
              end).
  { intros row Hrow.
    assert (Hl : length row = N).
    { destruct Hrow as [<-|Hrow]; [reflexivity|].
      rewrite Forall_forall in HF. apply HF. exact Hrow. }
    cbn [mapM]. rewrite !(py_index_by_pos row _ NaN), Hl.
    destruct (py_pos N n1), (py_pos N n2), (py_pos N n3); reflexivity. }
  assert (Hcolf : mapM (py_index cols) [n1; n2; n3]
            = match py_pos N n1, py_pos N n2, py_pos N n3 with
              | Some c1, Some c2, Some c3 =>
                  Ok [nth c1 cols []; nth c2 cols []; nth c3 cols []]
              | _, _, _ => Raise IndexError
              end).
  { cbn [mapM]. rewrite !(py_index_by_pos cols _ []), Hlc.
    destruct (py_pos N n1), (py_pos N n2), (py_pos N n3); reflexivity. }
  rewrite Hcolf.
  destruct (py_pos N n1) as [c1|] eqn:E1;
    [destruct (py_pos N n2) as [c2|] eqn:E2;
     [destruct (py_pos N n3) as [c3|] eqn:E3|]|].
  - (* the three nodes are valid *)
    rewrite (mapM_map_ok _ (fun row => [nth c1 row NaN; nth c2 row NaN;
                                        nth c3 row NaN]))
      by (intros row Hrow; rewrite (Hrowf row Hrow); reflexivity).
    cbn [bind]. split; [|discriminate].
    assert (Hnth : forall c, (c < N)%nat ->
              nth c cols [] = map (fun row => nth c row NaN) (row0 :: rows)).
    { intros c Hc. rewrite Hcols.
      rewrite (nth_map_lt _ _ _ 0%nat) by (rewrite length_seq; exact Hc).
      rewrite seq_nth by exact Hc. reflexivity. }
    rewrite !Hnth by (eapply py_pos_lt; eauto).
    set (R := row0 :: rows).
    unfold transpose.
    rewrite (mapM_map_ok _ (fun t => [nth c1 (nth t R []) NaN;
                                      nth c2 (nth t R []) NaN;
                                      nth c3 (nth t R []) NaN])).
    + cbn [bind]. rewrite length_map.
      rewrite (map_nth_seq (fun row => [nth c1 row NaN; nth c2 row NaN;
                                        nth c3 row NaN]) R []).
      reflexivity.
    + intros t Ht'. apply in_seq in Ht'. rewrite length_map in Ht'.
      unfold column. cbn [mapM].
      rewrite !(nth_error_nth' (map _ R) NaN) by (rewrite length_map; lia).
      cbn [bind].
      rewrite !(nth_map_lt _ R _ []) by lia. reflexivity.
  - rewrite (mapM_cons_raise _ _ _ IndexError)
      by (rewrite (Hrowf row0 (or_introl eq_refl)); reflexivity).
    cbn [bind]. split; [reflexivity|]. intros e H; inversion H; reflexivity.
  - rewrite (mapM_cons_raise _ _ _ IndexError)
      by (rewrite (Hrowf row0 (or_introl eq_refl)); reflexivity).
    cbn [bind]. split; [reflexivity|]. intros e H; inversion H; reflexivity.
  - rewrite (mapM_cons_raise _ _ _ IndexError)
      by (rewrite (Hrowf row0 (or_introl eq_refl)); reflexivity).
    cbn [bind]. split; [reflexivity|]. intros e H; inversion H; reflexivity.
Qed.

(** X14.  A variable the slicer treats as static (its name contains "max"
    or "depth") and whose data has one dimension cannot be reduced: for a
    batch with at least one point whose element numbers can all be read,
    the reduction raises [ValueError] (the one-column table does not
    multiply with the three weights). *)
Theorem static_variable_cannot_be_reduced
  (ds : dataset) (ag : agdict) (r : basis_results) (v : string)
  (var : variable) (x : float64) (xs : list float64)
  (j : Z) (js : list Z) (w : phi) (ws : list phi) :
  re_search "max" v || re_search "depth" v = true ->
  lookup v (ds_variables ds) = Ok var ->
  data var = Arr1 (x :: xs) ->
  final_jvals r = j :: js -> final_weights r = w :: ws ->
  Forall (fun jv => exists e, py_index (ele ag) jv = Ok e) (final_jvals r) ->
  ConstructReducedWaterLevelData_from_ds ds ag r (Some v) = Raise ValueError.
Proof.
  intros Hstatic Hv Hdata Hj Hw Hvalid.
  unfold ConstructReducedWaterLevelData_from_ds.
  rewrite (mapM_map_ok _ (fun _ => map (fun x => [x]) (x :: xs))).
  - cbn [bind]. rewrite Hj, Hw. unfold WaterLevelReductions.
    cbn [map length seq combine].
    rewrite (mapM_cons_raise _ _ _ ValueError); [reflexivity|].
    unfold reduce_one, matmul. destruct w as [[w1 w2] w3].
    cbn [weights_vector map]. reflexivity.
  - intros jv Hin. rewrite Forall_forall in Hvalid.
    destruct (Hvalid jv Hin) as ([[n1 n2] n3] & ->). cbn [bind].
    unfold get_adcirc_slice_from_ds. rewrite Hv. cbn [bind].
    rewrite Hstatic, Hdata. reflexivity.
Qed.

Lemma map_fst_combine_seq {B} (s n : nat) (l : list B) :
  (length l <= n)%nat -> map fst (combine (seq s n) l) = seq s (length l).
Proof.
  revert s n. induction l as [|b l IH]; intros s n H.
  - destruct (seq s n); reflexivity.
  - destruct n as [|n]; [simpl in H; lia|].
    simpl. f_equal. apply IH. simpl in H. lia.
Qed.

Lemma mapM_Forall2 {A B} (f : A -> result B) (l : list A) (bs : list B) :
  mapM f l = Ok bs -> Forall2 (fun a b => f a = Ok b) l bs.
Proof.
  revert bs. induction l as [|a l IH]; simpl; intros bs H.
  - inversion H. constructor.
  - destruct (f a) as [b|] eqn:Ef; cbn [bind] in H; [|discriminate].
    destruct (mapM f l) as [bs'|]; cbn [bind] in H; [|discriminate].
    inversion H; subst. constructor; auto.
Qed.

(** X15.  When [WaterLevelReductions] returns, the table keeps the time
    index it was given and has one column per point, labelled P1, P2, ...
    in the order of the batch, each as long as the time index; and the
    batch was not empty. *)
Theorem WaterLevelReductions_table_shape
  (t : list Z) (data_list : list (list (list float64)))
  (final_weights : list phi) (df : dataframe) :
  WaterLevelReductions t data_list final_weights = Ok df ->
  df_index df = t /\
  map fst (df_columns df)
  = map point_label
        (seq 0 (Nat.min (length data_list) (length final_weights))) /\
  Forall (fun c => length (snd c) = length t) (df_columns df) /\
  (1 <= Nat.min (length data_list) (length final_weights))%nat.
Proof.
  unfold WaterLevelReductions. intros H.
  destruct (mapM _ _) as [final_list|] eqn:E; cbn [bind] in H; [|discriminate].
  destruct final_list as [|c0 rest] eqn:El; [discriminate|].
  inversion H; subst df; cbn [df_index df_columns]. rewrite <- El in *.
  clear H. apply mapM_Forall2 in E.
  assert (Hfst : map fst final_list
                 = map point_label
                       (map fst (combine (seq 0 (length data_list))
                                         (combine data_list final_weights)))
                 /\ Forall (fun c => length (snd c) = length t) final_list).
  { clear El. induction E as [|[i [s w]] c l bs Hc E IH]; simpl.
    - split; constructor.
    - destruct IH as [IH1 IH2]. unfold reduce_one in Hc.
      destruct (matmul s (weights_vector w)) as [col|]; cbn [bind] in Hc;
        [|discriminate].
      destruct (Nat.eqb (length col) (length t)) eqn:Eq; [|discriminate].
      apply Nat.eqb_eq in Eq. inversion Hc; subst c. cbn [fst snd].
      split; [f_equal; exact IH1|]. constructor; auto. }
  destruct Hfst as [Hfst Hlen].
  rewrite map_fst_combine_seq in Hfst
    by (rewrite length_combine; lia).
  rewrite length_combine in Hfst.
  repeat split; auto.
  assert (Hl : length (map fst final_list)
               = Nat.min (length data_list) (length final_weights)).
  { rewrite Hfst, length_map, length_seq. reflexivity. }
  rewrite El in Hl. simpl in Hl. lia.
Qed.

(** X16.  When the reduction of a batch returns, the series of a point
    whose weights are not-a-number is not-a-number at every timestep, and
    as long as the time axis of the dataset. *)
Theorem unresolved_series_all_nan
  (ds : dataset) (ag : agdict) (r : basis_results) (v : string)
  (red : reduced_results) (i : nat) :
  ConstructReducedWaterLevelData_from_ds ds ag r (Some v) = Ok red ->
  nth_error (final_weights r) i = Some (NaN, NaN, NaN) ->
  (i < length (final_jvals r))%nat ->
  exists col,
    nth_error (df_columns (final_reduced_data red)) i
    = Some (point_label i, col) /\
    length col = length (ds_time ds) /\ Forall (fun x => x = NaN) col.
Proof.
  intros H Hw Hi.
  apply ConstructReduced_inv in H as (data_list & Hdl & Hred & _).
  destruct (nth_error_lt_Some _ _ Hi) as (j & Hj).
  destruct (mapM_nth_error _ _ _ _ _ Hdl Hj) as (series & _ & Hs).
  apply (WaterLevelReductions_unresolved_column _ _ _ _ _ _ Hred Hs Hw).
Qed.

(** X17.  On a mesh with fewer than 99999 elements a run of the pipeline
    that returns has resolved every point: the excluded table is empty and
    every element id of the metadata table is a 1-based element number of
    a candidate, never the -99999 marker. *)
Theorem Combined_pipeline_small_mesh_returns_resolved
  (got : option kdtree) (ds : dataset) (variable_name : option string)
  (pts : list point) (nearest_neighbors : nat)
  (df : dataframe) (meta : list meta_row) (excluded : list excluded_row)
  (g : option kdtree) :
  Z.of_nat (length (ds_element ds)) < 99999 ->
  Combined_pipeline got ds variable_name pts nearest_neighbors
  = Ok (df, meta, excluded, g) ->
  excluded = [] /\ length meta = length pts /\
  forall row, In row meta -> 1 <= Element row.
Proof.
  intros Hsmall. unfold Combined_pipeline.
  destruct (attach_element_areas (get_adcirc_grid_from_ds ds)) as [ag1|] eqn:Ea;
    cbn [bind]; [|discriminate].
  destruct (ComputeTree got ag1) as [[ag g']|] eqn:Et; cbn [bind];
    [|discriminate].
  destruct (ComputeQuery pts ag nearest_neighbors) as [q|] eqn:Eq;
    cbn [bind]; [|discriminate].
  destruct (ComputeBasisRepresentation pts ag q) as [r|] eqn:Er;
    cbn [bind]; [|discriminate].
  destruct (ConstructReducedWaterLevelData_from_ds ds ag r variable_name)
    as [red|] eqn:Ered; cbn [bind]; [|discriminate].
  destruct (mapM _ (outside_elements r)) as [ex|] eqn:Eex; cbn [bind];
    [|discriminate].
  intros H. inversion H; subst df meta excluded g. clear H.
  assert (Hele : length (ele ag) = length (ds_element ds)).
  { unfold ComputeTree in Et.
    destruct (mapM _ (ele ag1)); cbn [bind] in Et; [|discriminate].
    apply attach_element_areas_inv in Ea as (_ & _ & Hele & _).
    cbn in Hele.
    destruct got; inversion Et; subst ag; cbn [ele]; rewrite Hele;
      apply length_map. }
  pose proof (ComputeQuery_well_shaped _ _ _ _ Eq) as Hwf.
  assert (Hno : ~ In NOT_FOUND (final_jvals r)).
  { intros Hin.
    destruct (ConstructReduced_unresolved_raises ds ag r variable_name Hin)
      as (e & He); [lia|]. congruence. }
  assert (Hmeta : final_meta_data red = GenerateMetadata r).
  { unfold ConstructReducedWaterLevelData_from_ds in Ered.
    destruct variable_name; [|discriminate].
    destruct (mapM _ (final_jvals r)); cbn [bind] in Ered; [|discriminate].
    destruct (WaterLevelReductions _ _ _); cbn [bind] in Ered; [|discriminate].
    inversion Ered. reflexivity. }
  assert (Hres : forall i p row,
            nth_error pts i = Some p ->
            nth_error (elements q) i = Some row ->
            exists jk, nth_error (final_jvals r) i = Some jk /\ 0 <= jk /\
                       ~ unresolved ag p row).
  { intros i p row Hp Hrow.
    destruct (ComputeBasisRepresentation_point _ _ _ _ _ _ _ Er Hwf Hp Hrow)
      as (cands & Hc & _ & Hfj & _).
    destruct (pick_nearest_within_cases cands)
      as [(ph & jk & Hpick & Hin & Hw)|[Hpick Hall]];
      rewrite Hpick in Hfj; cbn [fst snd] in Hfj.
    - exists jk. split; [exact Hfj|].
      apply In_nth_error in Hin as (k & Hk).
      destruct (candidates_nth _ _ _ _ _ _ Hc Hk) as (Hrk & Hat).
      cbn [fst snd] in Hrk, Hat. split.
      + eapply (ComputeQuery_nonneg _ _ _ _ row jk Eq);
          eapply nth_error_In; eauto.
      + intros Hu. apply (Hu jk); [eapply nth_error_In; eauto|].
        exists ph. auto.
    - exfalso. apply Hno. eapply nth_error_In; eauto. }
  destruct (ComputeBasisRepresentation_lengths _ _ _ _ Er)
    as (Hle & _ & Hlj & _).
  split; [|split].
  - destruct (outside_elements r) as [|z zs] eqn:Eo.
    + cbn [mapM] in Eex. inversion Eex. reflexivity.
    + exfalso.
      assert (Hz : In z (outside_elements r)) by (rewrite Eo; left; reflexivity).
      apply (outside_elements_spec _ _ _ _ _ Er Hwf) in Hz
        as (i & p & row & _ & Hp & Hrow & Hu).
      destruct (Hres i p row Hp Hrow) as (_ & _ & _ & Hnu). contradiction.
  - cbn [final_meta_data]. rewrite Hmeta.
    exact (proj1 (GenerateMetadata_rows _ _ _ _ _ Eq Er)).
  - cbn [final_meta_data]. rewrite Hmeta. intros mrow Hin.
    apply In_nth_error in Hin as (i & Hi).
    assert (Hlt : (i < length pts)%nat).
    { rewrite <- (proj1 (GenerateMetadata_rows _ _ _ _ _ Eq Er)).
      apply nth_error_Some. congruence. }
    destruct (nth_error_lt_Some pts i Hlt) as (p & Hp).
    rewrite <- Hle in Hlt.
    destruct (nth_error_lt_Some _ i Hlt) as (row & Hrow).
    destruct (Hres i p row Hp Hrow) as (jk & Hjk & Hnn & _).
    pose proof (ComputeBasisRepresentation_inv _ _ _ _ Er)
      as (_ & _ & _ & _ & _ & _ & Hqr & _).
    pose proof (ComputeQuery_inv _ _ _ _ Eq) as (_ & _ & _ & _ & _ & Hgp).
    assert (Hgp' : nth_error (geopoints (query r)) i = Some p)
      by (rewrite Hqr, Hgp; exact Hp).
    rewrite (GenerateMetadata_nth _ _ _ _ Hgp' Hjk) in Hi.
    inversion Hi; subst mrow. cbn [Element]. unfold replace.
    destruct (jk + 1 =? -99998) eqn:E; [apply Z.eqb_eq in E|]; lia.
Qed.


(* ================================================================== *)
(** * Worked instances of the further properties *)
(* ================================================================== *)

(** X2 on a one-element mesh whose connectivity is (0, 1, 2). *)
Lemma node_number_zero_reads_last_node_witness :
  In (-1, 1 - 1, 2 - 1) (ele (attached zero_ds)) /\
  exists x2 x3 y2 y3,
    element_nodes (lon (attached zero_ds)) (lat (attached zero_ds))
                  (-1, 1 - 1, 2 - 1)
    = Ok ((last (ds_x zero_ds) NaN, x2, x3), (last (ds_y zero_ds) NaN, y2, y3)).
Proof.
  apply (node_number_zero_reads_last_node zero_ds (attached zero_ds) 1 2).
  - vm_compute. reflexivity.
  - left. reflexivity.
Defined.

(** X5: the unit triangle, given the cache the two-triangle mesh left,
    gets the two centroids of that mesh as its tree. *)
Lemma ComputeTree_reuses_cached_tree_witness :
  (exists t, tree (with_tree two_ds) = Some t /\
             length t = length (ele (attached two_ds)) /\
             tree unit_with_cached_tree = Some t /\
             tree (with_tree two_ds) = Some t /\
             tree (with_tree two_ds) = Some t) /\
  lon unit_with_cached_tree = lon (attached unit_ds) /\
  lat unit_with_cached_tree = lat (attached unit_ds) /\
  ele unit_with_cached_tree = ele (attached unit_ds) /\
  areas unit_with_cached_tree = areas (attached unit_ds).
Proof.
  apply (ComputeTree_reuses_cached_tree
           (attached two_ds) (attached unit_ds) (with_tree two_ds)
           unit_with_cached_tree
           (tree (with_tree two_ds)) (tree (with_tree two_ds))).
  - vm_compute. reflexivity.
  - vm_compute. reflexivity.
Defined.

(** X6 on the two-triangle mesh with two resolved points. *)
Lemma Combined_pipeline_repeatable_witness :
  Combined_pipeline (snd (pipeline_tables two_ds edge_and_inside 2)) two_ds
                    (Some "zeta"%string) edge_and_inside 2
  = Ok (pipeline_tables two_ds edge_and_inside 2).
Proof.
  apply (Combined_pipeline_repeatable two_ds (Some "zeta"%string)
           edge_and_inside 2
           (fst (fst (fst (pipeline_tables two_ds edge_and_inside 2))))
           (snd (fst (fst (pipeline_tables two_ds edge_and_inside 2))))
           (snd (fst (pipeline_tables two_ds edge_and_inside 2)))
           (snd (pipeline_tables two_ds edge_and_inside 2))).
  vm_compute. reflexivity.
Defined.

(** X7 for the second triangle and the point (5, 5) outside it. *)
Lemma basis2d_reproduces_point_witness :
  (w0 (nth_phi (batch two_ds [far_away] [1]) 0) * vertex_x (first_nodes (attached two_ds) 1) 0
   + w1 (nth_phi (batch two_ds [far_away] [1]) 0) * vertex_x (first_nodes (attached two_ds) 1) 1
   + w2 (nth_phi (batch two_ds [far_away] [1]) 0) * vertex_x (first_nodes (attached two_ds) 1) 2)%F
  = Fin (Q2Qc 5) /\
  (w0 (nth_phi (batch two_ds [far_away] [1]) 0) * vertex_y (first_nodes (attached two_ds) 1) 0
   + w1 (nth_phi (batch two_ds [far_away] [1]) 0) * vertex_y (first_nodes (attached two_ds) 1) 1
   + w2 (nth_phi (batch two_ds [far_away] [1]) 0) * vertex_y (first_nodes (attached two_ds) 1) 2)%F
  = Fin (Q2Qc 5).
Proof.
  apply (basis2d_reproduces_point
           (get_adcirc_grid_from_ds two_ds) (attached two_ds)
           (Q2Qc 5) (Q2Qc 5) 1 (0, 2, 3)
           (vertex_x (first_nodes (attached two_ds) 1) 0)
           (vertex_x (first_nodes (attached two_ds) 1) 1)
           (vertex_x (first_nodes (attached two_ds) 1) 2)
           (vertex_y (first_nodes (attached two_ds) 1) 0)
           (vertex_y (first_nodes (attached two_ds) 1) 1)
           (vertex_y (first_nodes (attached two_ds) 1) 2)
           (stored_area (attached two_ds) 1)).
  - vm_compute. reflexivity.
  - reflexivity.
  - vm_compute. reflexivity.
  - vm_compute. reflexivity.
  - intros H. apply (f_equal this) in H. vm_compute in H. discriminate H.
  - vm_compute. reflexivity.
Defined.



(** X10 for the third point of the batch, which is outside the mesh. *)
Lemma resolution_outputs_agree_witness :
  (nth_error (final_status (resolved two_ds two_points 2)) 2 = Some true /\
   ~ In (Z.of_nat 2) (outside_elements (resolved two_ds two_points 2)) /\
   exists ph jk,
     nth_error (final_weights (resolved two_ds two_points 2)) 2 = Some ph /\
     nth_error (final_jvals (resolved two_ds two_points 2)) 2 = Some jk /\
     In jk [0; 1] /\ basis2d (with_tree two_ds) [far_away] [jk] = Ok [ph] /\
     basis2d_withinElement [ph] = [true]) \/
  (nth_error (final_status (resolved two_ds two_points 2)) 2 = Some false /\
   In (Z.of_nat 2) (outside_elements (resolved two_ds two_points 2)) /\
   nth_error (final_weights (resolved two_ds two_points 2)) 2
   = Some (NaN, NaN, NaN) /\
   nth_error (final_jvals (resolved two_ds two_points 2)) 2 = Some (-99999)).
Proof.
  apply (resolution_outputs_agree two_points (with_tree two_ds)
           (queried two_ds two_points 2) (resolved two_ds two_points 2)
           2 far_away [0; 1]).
  - vm_compute. reflexivity.
  - repeat constructor.
  - reflexivity.
  - reflexivity.
Defined.

(** X11 for the first point of the batch of three. *)
Lemma resolution_is_pointwise_witness :
  exists r1,
    ComputeBasisRepresentation [on_edge] (with_tree two_ds)
      (single_query (queried two_ds two_points 2) on_edge [0; 1]
                    on_edge_distances) = Ok r1 /\
    nth_error (final_weights (resolved two_ds two_points 2)) 0
    = nth_error (final_weights r1) 0 /\
    nth_error (final_jvals (resolved two_ds two_points 2)) 0
    = nth_error (final_jvals r1) 0 /\
    nth_error (final_status (resolved two_ds two_points 2)) 0
    = nth_error (final_status r1) 0 /\
    length (final_jvals r1) = 1%nat.
Proof.
  apply (resolution_is_pointwise two_points (with_tree two_ds)
           (queried two_ds two_points 2) (resolved two_ds two_points 2)
           0 on_edge [0; 1] on_edge_distances).
  - vm_compute. reflexivity.
  - repeat constructor.
  - reflexivity.
  - reflexivity.
Defined.

(** X12: three neighbours on the mesh of two elements. *)
Lemma more_neighbors_than_elements_raises_witness :
  ComputeBasisRepresentation two_points (with_tree two_ds)
                             (queried two_ds two_points 3)
  = Raise IndexError.
Proof.
  apply (more_neighbors_than_elements_raises
           (get_adcirc_grid_from_ds two_ds) (attached two_ds) (with_tree two_ds)
           (tree (with_tree two_ds)) two_points 3 (queried two_ds two_points 3)).
  - vm_compute. reflexivity.
  - vm_compute. reflexivity.
  - discriminate.
  - vm_compute. lia.
  - reflexivity.
Defined.

(** X13 for the variable of the two-triangle dataset and its transpose. *)
Lemma axis_conventions_agree_witness :
  get_adcirc_slice_from_ds two_ds "zeta" [0; 2; 3]
  = get_adcirc_slice_from_ds two_ds_node_leading "zeta" [0; 2; 3] /\
  (forall e, get_adcirc_slice_from_ds two_ds "zeta" [0; 2; 3] = Raise e ->
             e = IndexError).
Proof.
  apply (axis_conventions_agree two_ds two_ds_node_leading "zeta"
           ["node"%string] ["time"%string]
           [of_Z 1; of_Z 2; of_Z 3; of_Z 4]
           [[of_Z 2; of_Z 4; of_Z 6; of_Z 8]]
           [[of_Z 1; of_Z 2]; [of_Z 2; of_Z 4];
            [of_Z 3; of_Z 6]; [of_Z 4; of_Z 8]] 0 2 3).
  - reflexivity.
  - reflexivity.
  - reflexivity.
  - reflexivity.
  - repeat constructor.
  - reflexivity.
Defined.

(** X14 for the depth variable of the two-triangle dataset. *)
Lemma static_variable_cannot_be_reduced_witness :
  ConstructReducedWaterLevelData_from_ds two_ds_node_leading (with_tree two_ds)
    (resolved two_ds edge_and_inside 2) (Some "depth"%string)
  = Raise ValueError.
Proof.
  apply (static_variable_cannot_be_reduced two_ds_node_leading
           (with_tree two_ds) (resolved two_ds edge_and_inside 2) "depth"
           {| dims := ["node"%string];
              data := Arr1 [of_Z 5; of_Z 6; of_Z 7; of_Z 8] |}
           (of_Z 5) [of_Z 6; of_Z 7; of_Z 8]
           0 [0]
           (nth_phi (final_weights (resolved two_ds edge_and_inside 2)) 0)
           [nth_phi (final_weights (resolved two_ds edge_and_inside 2)) 1]).
  - reflexivity.
  - reflexivity.
  - reflexivity.
  - vm_compute. reflexivity.
  - vm_compute. reflexivity.
  - replace (final_jvals (resolved two_ds edge_and_inside 2)) with [0; 0]
      by (vm_compute; reflexivity).
    repeat constructor; eexists; vm_compute; reflexivity.
Defined.

(** X15 for two points and two timesteps. *)
Lemma WaterLevelReductions_table_shape_witness :
  df_index (reduced_frame [0; 3600]
              [[[of_Z 1; of_Z 2; of_Z 3]; [of_Z 2; of_Z 4; of_Z 6]];
               [[of_Z 1; of_Z 1; of_Z 1]; [of_Z 0; of_Z 0; of_Z 0]]]
              [(half, quarter, quarter); nan3]) = [0; 3600] /\
  map fst (df_columns (reduced_frame [0; 3600]
              [[[of_Z 1; of_Z 2; of_Z 3]; [of_Z 2; of_Z 4; of_Z 6]];
               [[of_Z 1; of_Z 1; of_Z 1]; [of_Z 0; of_Z 0; of_Z 0]]]
              [(half, quarter, quarter); nan3]))
  = map point_label (seq 0 (Nat.min 2 2)) /\
  Forall (fun c => length (snd c) = 2%nat)
         (df_columns (reduced_frame [0; 3600]
              [[[of_Z 1; of_Z 2; of_Z 3]; [of_Z 2; of_Z 4; of_Z 6]];
               [[of_Z 1; of_Z 1; of_Z 1]; [of_Z 0; of_Z 0; of_Z 0]]]
              [(half, quarter, quarter); nan3])) /\
  (1 <= Nat.min 2 2)%nat.
Proof.
  apply (WaterLevelReductions_table_shape [0; 3600]
           [[[of_Z 1; of_Z 2; of_Z 3]; [of_Z 2; of_Z 4; of_Z 6]];
            [[of_Z 1; of_Z 1; of_Z 1]; [of_Z 0; of_Z 0; of_Z 0]]]
           [(half, quarter, quarter); nan3]).
  vm_compute. reflexivity.
Defined.

(** X16 on a mesh of 99999 elements, where the element number -99999 of
    an unresolved point reads the first element. *)
Lemma unresolved_series_all_nan_witness :
  exists col,
    nth_error (df_columns (final_reduced_data
                 (reduced two_ds large_ag one_unresolved "zeta"))) 0
    = Some (point_label 0, col) /\
    length col = length (ds_time two_ds) /\ Forall (fun x => x = NaN) col.
Proof.
  apply (unresolved_series_all_nan two_ds large_ag one_unresolved "zeta"
           (reduced two_ds large_ag one_unresolved "zeta") 0).
  - vm_compute. reflexivity.
  - reflexivity.
  - simpl. lia.
Defined.

(** X17 on the two-triangle mesh with two resolved points. *)
Lemma Combined_pipeline_small_mesh_returns_resolved_witness :
  snd (fst (pipeline_tables two_ds edge_and_inside 2)) = [] /\
  length (snd (fst (fst (pipeline_tables two_ds edge_and_inside 2))))
  = length edge_and_inside /\
  forall row,
    In row (snd (fst (fst (pipeline_tables two_ds edge_and_inside 2)))) ->
    1 <= Element row.
Proof.
  apply (Combined_pipeline_small_mesh_returns_resolved
           None two_ds (Some "zeta"%string) edge_and_inside 2
           (fst (fst (fst (pipeline_tables two_ds edge_and_inside 2))))
           (snd (fst (fst (pipeline_tables two_ds edge_and_inside 2))))
           (snd (fst (pipeline_tables two_ds edge_and_inside 2)))
           (snd (pipeline_tables two_ds edge_and_inside 2))).
  - vm_compute. reflexivity.
  - vm_compute. reflexivity.
Defined.

(** X18 for the second point of the batch, selected element 0 with the
    nodes 0, 1, 2. *)
Lemma reduced_series_time_leading_witness :
  exists col,
    nth_error (df_columns (final_reduced_data
                 (reduced two_ds (with_tree two_ds)
                          (resolved two_ds edge_and_inside 2) "zeta"))) 1
    = Some (point_label 1, col) /\
    length col = 2%nat /\
    forall tt row,
      nth_error [[of_Z 1; of_Z 2; of_Z 3; of_Z 4];
                 [of_Z 2; of_Z 4; of_Z 6; of_Z 8]] tt = Some row ->
      exists s1 s2 s3,
        py_index row 0 = Ok s1 /\ py_index row 1 = Ok s2 /\
        py_index row 2 = Ok s3 /\
        nth_error col tt
        = Some (weighted_sum
                  (w0 (nth_phi (final_weights (resolved two_ds edge_and_inside 2)) 1))
                  (w1 (nth_phi (final_weights (resolved two_ds edge_and_inside 2)) 1))
                  (w2 (nth_phi (final_weights (resolved two_ds edge_and_inside 2)) 1))
                  s1 s2 s3).
Proof.
  apply (reduced_series_time_leading two_ds (with_tree two_ds)
           (resolved two_ds edge_and_inside 2) "zeta"
           (reduced two_ds (with_tree two_ds)
                    (resolved two_ds edge_and_inside 2) "zeta")
           {| dims := ["time"; "node"]%string;
              data := Arr2 [[of_Z 1; of_Z 2; of_Z 3; of_Z 4];
                            [of_Z 2; of_Z 4; of_Z 6; of_Z 8]] |}
           ["node"%string]
           [[of_Z 1; of_Z 2; of_Z 3; of_Z 4]; [of_Z 2; of_Z 4; of_Z 6; of_Z 8]]
           1 0 0 1 2).
  - vm_compute. reflexivity.
  - reflexivity.
  - reflexivity.
  - reflexivity.
  - reflexivity.
  - reflexivity.
  - vm_compute. reflexivity.
  - vm_compute. reflexivity.
  - vm_compute. reflexivity.
Defined.
